(** * CourseOS, hw1: the simulated physical frame store (os.c) and the
      five-level page table walker (pt.c).

    The frame store and the walker are embedded as executable functions over
    an explicit machine state; every run-time failure of the C program (the
    two fatal exits of the allocator, on a full registry and on a failed
    [mmap], and an access through a pointer that is not backed by a frame)
    is an explicit result.  Whether a call of [mmap] succeeds is a parameter
    of the embedding.

    Contents: the embedding; the invariant of a page table (a tree of
    frames); the update and the query followed level by level; the
    properties of the interface; closed instances on the first table. *)

From Stdlib Require Import ZArith Lia.
From stdpp Require Import base option list gmap.

Local Open Scope Z_scope.

(** ** 64-bit unsigned arithmetic ([uint64_t]) *)

Definition wrap64 (x : Z) : Z := x mod 2 ^ 64.
Definition add64 (x y : Z) : Z := wrap64 (x + y).
Definition sub64 (x y : Z) : Z := wrap64 (x - y).
Definition shl64 (x n : Z) : Z := wrap64 (Z.shiftl x n).

(** ** Constants of pt.c and os.c *)

Definition PAGE_SIZE_BITS : Z := 13.
Definition PAGE_TABLE_LEVELS : nat := 5.
Definition VPN_BITS_USED : Z := 50.
Definition BITS_PER_LEVEL : Z := 10.
Definition ENTRIES_PER_LEVEL : nat := 1024.
Definition LEVEL_MASK : Z := 0x3ff.
Definition PTE_VALID_BIT : Z := 0.
Definition PTE_UNUSED_BITS : Z := 12.
Definition PTE_FRAME_SHIFT : Z := 13.

Definition NPAGES : Z := 1024 * 1024.
(** The literal [0xbaaaaaad] that os.c adds to a registry index to form a PPN
    and subtracts again in [phys_to_virt]. *)
Definition BIAS : Z := 0xbaaaaaad.

(** ** Results of a run *)

Inductive fatal : Type :=
| Exhausted   (* errx(1, "out of physical memory") *)
| Mmap_failed (* err(1, "mmap failed") *)
| Fault.      (* access through a pointer that no frame backs, or outside it *)

Inductive result (A : Type) : Type :=
| Ok (a : A)
| Fatal (e : fatal).
Arguments Ok {A} a.
Arguments Fatal {A} e.

#[global] Instance result_ret : MRet result := fun A a => Ok a.
#[global] Instance result_bind : MBind result := fun A B f m =>
  match m with
  | Ok a => f a
  | Fatal e => Fatal e
  end.

(** ** The frame store of os.c *)

(** A frame is the 8 KiB region returned by [mmap], read and written by the
    walker as an array of 1024 64-bit words. *)
Definition zero_frame : list Z := replicate ENTRIES_PER_LEVEL 0.

(** [pages] is the static array [char* pages[NPAGES]]: slot [i] is absent
    while it holds NULL and otherwise carries the contents of the frame it
    points to.  [nalloc] is the static counter of [alloc_page_frame]. *)
Record phys : Type := Phys {
  nalloc : Z;
  pages : gmap Z (list Z)
}.

Definition boot : phys := {| nalloc := 0; pages := ∅ |}.

(** What a [char*] / [uint64_t*] of the program can be: a byte offset into
    the frame of a registry slot, or a bare address that no frame backs
    (NULL is address 0). *)
Inductive pointer : Type :=
| Addr (a : Z)
| InFrame (index : Z) (off : Z).

Definition NULL : pointer := Addr 0.

Definition ptr_add (p : pointer) (off : Z) : pointer :=
  match p with
  | Addr a => Addr (a + off)
  | InFrame i o => InFrame i (o + off)
  end.

(** The value of [pages[i]]. *)
Definition slot (s : phys) (i : Z) : pointer :=
  match pages s !! i with
  | Some _ => InFrame i 0
  | None => NULL
  end.

Definition phys_to_virt (s : phys) (phys_addr : Z) : pointer :=
  let ppn := sub64 (Z.shiftr phys_addr 13) BIAS in
  let off := Z.land phys_addr 0x1fff in
  if ppn <? NPAGES then ptr_add (slot s ppn) off else NULL.

(** Word [i] of the frame in registry slot [f]. *)
Definition peek (s : phys) (f i : Z) : option Z :=
  if 0 <=? i then fr ← pages s !! f; fr !! Z.to_nat i else None.

Definition poke (s : phys) (f i w : Z) : option phys :=
  match pages s !! f with
  | Some fr =>
      if (0 <=? i) && (i <? Z.of_nat (length fr)) then
        Some {| nalloc := nalloc s;
                pages := <[f := <[Z.to_nat i := w]> fr]> (pages s) |}
      else None
  | None => None
  end.

(** [table[i]] read and written through a [uint64_t*]; only word-aligned
    pointers are modelled, the walker forms no other. *)
Definition load64 (s : phys) (table : pointer) (i : Z) : result Z :=
  match table with
  | Addr _ => Fatal Fault
  | InFrame f off =>
      if off mod 8 =? 0 then
        match peek s f (off / 8 + i) with
        | Some w => Ok w
        | None => Fatal Fault
        end
      else Fatal Fault
  end.

Definition store64 (s : phys) (table : pointer) (i w : Z) : result phys :=
  match table with
  | Addr _ => Fatal Fault
  | InFrame f off =>
      if off mod 8 =? 0 then
        match poke s f (off / 8 + i) w with
        | Some s' => Ok s'
        | None => Fatal Fault
        end
      else Fatal Fault
  end.

Arguments phys_to_virt : simpl never.
Arguments load64 : simpl never.
Arguments store64 : simpl never.

(** ** The walker of pt.c *)

(** The loop of [split_vpn]: [n] is [i + 1], so the body runs for
    [i = 4, 3, 2, 1, 0]. *)
Fixpoint split_vpn_loop (n : nat) (vpn : Z) (indices : list Z) : list Z :=
  match n with
  | O => indices
  | S i =>
      split_vpn_loop i (Z.shiftr vpn BITS_PER_LEVEL)
        (<[i := Z.land vpn LEVEL_MASK]> indices)
  end.

Definition split_vpn (vpn : Z) : list Z :=
  split_vpn_loop PAGE_TABLE_LEVELS vpn (replicate PAGE_TABLE_LEVELS 0).

(** How a [for] loop over the interior levels ends: by a [return] inside its
    body, or by running out of levels with [table] at the leaf table. *)
Inductive loop_exit (R : Type) : Type :=
| Returned (r : R)
| Completed (table : pointer).
Arguments Returned {R} r.
Arguments Completed {R} table.

(** ** Well-formed stores and tables *)

(** The store after one more frame was allocated. *)
Definition grown (s : phys) : phys :=
  {| nalloc := nalloc s + 1; pages := <[nalloc s := zero_frame]> (pages s) |}.

(** The registry as [alloc_page_frame] leaves it: exactly the slots below the
    counter point to a frame. *)
Definition store_ok (s : phys) : Prop :=
  0 <= nalloc s <= NPAGES /\
  forall i, is_Some (pages s !! i) <-> 0 <= i < nalloc s.

(** Index vectors as [split_vpn] produces them. *)
Definition good_indices (idx : list Z) : Prop :=
  length idx = PAGE_TABLE_LEVELS /\
  forall k, (k < PAGE_TABLE_LEVELS)%nat -> 0 <= idx !!! k < 1024.

(** A page table is a tree of frames.  [pos] records, for every frame that
    is a node of the tree, its position: the indices that lead to it from
    the root.  Every node is an allocated frame of 1024 words, and a valid
    entry of an interior node (fewer than four indices deep) holds the PPN of
    the node one index further down.  Leaf entries are not constrained. *)
Record table_inv (s : phys) (pos : gmap Z (list Z)) : Prop := {
  inv_nalloc : 0 <= nalloc s <= NPAGES;
  inv_frame : forall f pre, pos !! f = Some pre ->
    0 <= f < nalloc s /\ (length pre <= 4)%nat /\
    forall i, 0 <= i < 1024 -> is_Some (peek s f i);
  inv_child : forall f pre i e, pos !! f = Some pre ->
    (length pre < 4)%nat -> peek s f i = Some e -> Z.land e 1 <> 0 ->
    exists t, Z.shiftr e 13 = t + BIAS /\ pos !! t = Some (pre ++ [i])
}.

(** [root] is the PPN of the root of a page table in [s].  A frame fresh
    from the allocator is one, and updates and further allocations keep it
    one (lemmas [fresh_root_wf], [update_keeps_wf], [grown_keeps_wf],
    [built_wf]). *)
Definition wf_table (s : phys) (root : Z) : Prop :=
  exists pos, pos !! (root - BIAS) = Some [] /\ table_inv s pos.

(** Slot [(f, i)] lies on the path of [idx] at level [l] or deeper. *)
Definition on_path (pos : gmap Z (list Z)) (idx : list Z) (l : nat)
    (f i : Z) : Prop :=
  exists k, (l <= k <= 4)%nat /\ pos !! f = Some (take k idx) /\ i = idx !!! k.

(** Walking down from [table] at [level], some interior entry on the path of
    [indices] is invalid. *)
Inductive first_invalid (s : phys) (indices : list Z) : nat -> pointer -> Prop :=
| invalid_here level table entry :
    (level < 4)%nat ->
    load64 s table (indices !!! level) = Ok entry ->
    Z.land entry 1 = 0 ->
    first_invalid s indices level table
| invalid_below level table entry :
    (level < 4)%nat ->
    load64 s table (indices !!! level) = Ok entry ->
    Z.land entry 1 <> 0 ->
    first_invalid s indices (S level)
      (phys_to_virt s (shl64 (Z.shiftr entry PTE_FRAME_SHIFT) PAGE_SIZE_BITS)) ->
    first_invalid s indices level table.

Definition path_incomplete (s : phys) (root vpn : Z) : Prop :=
  first_invalid s (split_vpn vpn) 0 (phys_to_virt s (shl64 root PAGE_SIZE_BITS)).

(** Modelled from the spec: os.h, which defines NO_MAPPING, is not among the
    sources.  The spec calls the sentinel a reserved value that no allocated
    PPN can equal, and says that the bias is larger than any value the
    sentinel could take; the customary all-ones sentinel lies above every PPN
    instead.  Either way the sentinel is outside the range of the PPNs the
    allocator can form. *)
Definition sentinel_reserved (no_mapping : Z) : Prop :=
  no_mapping < BIAS \/ BIAS + NPAGES <= no_mapping.

(** The all-ones word, the customary value of the sentinel; the closed
    examples at the end are run with it. *)
Definition all_ones : Z := 2 ^ 64 - 1.

(** Two operating systems for the closed examples: one whose [mmap] always
    succeeds, one whose [mmap] always fails. *)
Definition mmap_always : Z -> bool := fun _ => true.
Definition mmap_never : Z -> bool := fun _ => false.

(** The value of a VPN whose fields, most significant first, are [idx]. *)
Definition join_indices (idx : list Z) : Z :=
  fold_left (fun acc i => acc * 1024 + i) idx 0.

(** ** Further notions: cost of an insertion, neighbouring tables, runs of
    assertions *)

(** The number of frames the interior loop of an insertion allocates on the
    path of [indices]: at the first invalid entry, one for that level and one
    for every level below it; none if every entry is valid. *)
Fixpoint missing_levels (n level : nat) (indices : list Z) (table : pointer)
    (s : phys) : Z :=
  match n with
  | O => 0
  | S n' =>
      match load64 s table (indices !!! level) with
      | Ok entry =>
          if Z.land entry 1 =? 0 then Z.of_nat n
          else
            missing_levels n' (S level) indices
              (phys_to_virt s
                 (shl64 (Z.shiftr entry PTE_FRAME_SHIFT) PAGE_SIZE_BITS)) s
      | Fatal _ => 0
      end
  end.

Definition frames_needed (s : phys) (root vpn : Z) : Z :=
  missing_levels (PAGE_TABLE_LEVELS - 1) 0 (split_vpn vpn)
    (phys_to_virt s (shl64 root PAGE_SIZE_BITS)) s.

(** [root1] and [root2] are page tables in [s] that share no node. *)
Definition apart (s : phys) (root1 root2 : Z) : Prop :=
  exists pos1 pos2,
    pos1 !! (root1 - BIAS) = Some [] /\ table_inv s pos1 /\
    pos2 !! (root2 - BIAS) = Some [] /\ table_inv s pos2 /\
    forall f, pos1 !! f = None \/ pos2 !! f = None.

(** How a run of [assert]s ends: all held, one failed (the process aborts),
    or the run died before. *)
Inductive checked : Type :=
| Passed
| Assert_failed
| Stopped (e : fatal).

(** [assert(r == want)] followed by [k], and a call followed by [k]. *)
Definition expect (r : result Z) (want : Z) (k : checked) : checked :=
  match r with
  | Ok x => if x =? want then k else Assert_failed
  | Fatal e => Stopped e
  end.

Definition doing {A : Type} (r : result A) (k : A -> checked) : checked :=
  match r with
  | Ok a => k a
  | Fatal e => Stopped e
  end.

Definition after (c : checked) (k : checked) : checked :=
  match c with
  | Passed => k
  | _ => c
  end.

Section Walker.

(** os.h, which defines [NO_MAPPING], is not among the sources: the sentinel
    is a parameter of the walker. *)
Variable NO_MAPPING : Z.

(** The operating system: [mmap_ok k] tells whether the [mmap] call made for
    registry slot [k] succeeds.  Each slot is allocated at most once, and a
    failed call ends the process, so the slot identifies the call. *)
Variable mmap_ok : Z -> bool.

(** [alloc_page_frame] of os.c: the exit on a full registry, the [mmap] call
    with its exit on failure, then the store into [pages].  [nalloc] is
    incremented before [mmap] is called; a failed call ends the process, so
    no store survives it.  A successful anonymous [mmap] returns zero-filled
    memory. *)
Definition alloc_page_frame (s : phys) : result (Z * phys) :=
  if nalloc s =? NPAGES then Fatal Exhausted
  else
    let ppn := nalloc s in
    if mmap_ok ppn then
      if (0 <=? ppn) && (ppn <? NPAGES) then
        Ok (add64 ppn BIAS,
            {| nalloc := add64 (nalloc s) 1;
               pages := <[ppn := zero_frame]> (pages s) |})
      else Fatal Fault   (* pages[ppn] outside the array *)
    else Fatal Mmap_failed.

Arguments alloc_page_frame : simpl never.

(** The [mmap] calls for the next [n] slots succeed. *)
Definition mmap_next (s : phys) (n : Z) : Prop :=
  forall k, nalloc s <= k < nalloc s + n -> mmap_ok k = true.

(** [n] iterations of the interior loop of [page_table_update], starting at
    [level]. *)
Fixpoint update_loop (n level : nat) (indices : list Z) (table : pointer)
    (ppn : Z) (s : phys) : result (loop_exit unit * phys) :=
  match n with
  | O => Ok (Completed table, s)
  | S n' =>
      entry ← load64 s table (indices !!! level);
      if Z.land entry 1 =? 0 then
        if ppn =? NO_MAPPING then Ok (Returned tt, s)
        else
          '(new_pt, s1) ← alloc_page_frame s;
          s2 ← store64 s1 table (indices !!! level)
                 (Z.lor (shl64 new_pt PTE_FRAME_SHIFT) 1);
          update_loop n' (S level) indices
            (phys_to_virt s2 (shl64 new_pt PAGE_SIZE_BITS)) ppn s2
      else
        let next_pt := Z.shiftr entry PTE_FRAME_SHIFT in
        update_loop n' (S level) indices
          (phys_to_virt s (shl64 next_pt PAGE_SIZE_BITS)) ppn s
  end.

Definition page_table_update (pt vpn ppn : Z) (s : phys) : result phys :=
  let indices := split_vpn vpn in
  let table := phys_to_virt s (shl64 pt PAGE_SIZE_BITS) in
  '(ex, s') ← update_loop (PAGE_TABLE_LEVELS - 1) 0 indices table ppn s;
  match ex with
  | Returned _ => Ok s'
  | Completed table =>
      if ppn =? NO_MAPPING then
        store64 s' table (indices !!! (PAGE_TABLE_LEVELS - 1)%nat) 0
      else
        store64 s' table (indices !!! (PAGE_TABLE_LEVELS - 1)%nat)
          (Z.lor (shl64 ppn PTE_FRAME_SHIFT) 1)
  end.

Fixpoint query_loop (n level : nat) (indices : list Z) (table : pointer)
    (s : phys) : result (loop_exit Z) :=
  match n with
  | O => Ok (Completed table)
  | S n' =>
      entry ← load64 s table (indices !!! level);
      if Z.land entry 1 =? 0 then Ok (Returned NO_MAPPING)
      else
        let next_pt := Z.shiftr entry PTE_FRAME_SHIFT in
        query_loop n' (S level) indices
          (phys_to_virt s (shl64 next_pt PAGE_SIZE_BITS)) s
  end.

Definition page_table_query (pt vpn : Z) (s : phys) : result Z :=
  let indices := split_vpn vpn in
  let table := phys_to_virt s (shl64 pt PAGE_SIZE_BITS) in
  ex ← query_loop (PAGE_TABLE_LEVELS - 1) 0 indices table s;
  match ex with
  | Returned r => Ok r
  | Completed table =>
      final_entry ← load64 s table (indices !!! (PAGE_TABLE_LEVELS - 1)%nat);
      if Z.land final_entry 1 =? 0 then Ok NO_MAPPING
      else Ok (Z.shiftr final_entry PTE_FRAME_SHIFT)
  end.

(** The stores in which [root] is a table made by the interface: [root] was
    returned by [alloc_page_frame], and since then the table was updated and
    further frames were allocated. *)
Inductive built (root : Z) : phys -> Prop :=
| built_fresh s s0 :
    alloc_page_frame s = Ok (root, s0) -> built root s0
| built_update s vpn ppn s' :
    built root s -> page_table_update root vpn ppn s = Ok s' -> built root s'
| built_alloc s ppn s' :
    built root s -> alloc_page_frame s = Ok (ppn, s') -> built root s'.

(** The code after the interior loop, and the walk resumed at the table in
    registry slot [t]. *)
Definition finish_update (indices : list Z) (ppn : Z)
    (r : loop_exit unit * phys) : result phys :=
  match r.1 with
  | Returned _ => Ok r.2
  | Completed table =>
      if ppn =? NO_MAPPING then
        store64 r.2 table (indices !!! (PAGE_TABLE_LEVELS - 1)%nat) 0
      else
        store64 r.2 table (indices !!! (PAGE_TABLE_LEVELS - 1)%nat)
          (Z.lor (shl64 ppn PTE_FRAME_SHIFT) 1)
  end.

Definition finish_query (indices : list Z) (s : phys)
    (ex : loop_exit Z) : result Z :=
  match ex with
  | Returned r => Ok r
  | Completed table =>
      final_entry ← load64 s table (indices !!! (PAGE_TABLE_LEVELS - 1)%nat);
      if Z.land final_entry 1 =? 0 then Ok NO_MAPPING
      else Ok (Z.shiftr final_entry PTE_FRAME_SHIFT)
  end.

Definition update_from (n l : nat) (idx : list Z) (t ppn : Z) (s : phys)
    : result phys :=
  update_loop n l idx (InFrame t 0) ppn s ≫= finish_update idx ppn.

Definition query_from (n l : nat) (idx : list Z) (t : Z) (s : phys)
    : result Z :=
  query_loop n l idx (InFrame t 0) s ≫= finish_query idx s.

(** Every interior entry on the path of [vpn] is valid. *)
Definition path_complete (s : phys) (root vpn : Z) : Prop :=
  exists tb,
    query_loop (PAGE_TABLE_LEVELS - 1) 0 (split_vpn vpn)
      (phys_to_virt s (shl64 root PAGE_SIZE_BITS)) s = Ok (Completed tb).

(** What [query] must answer after [update] wrote [ppn]. *)
Definition stored (ppn : Z) : Z :=
  if ppn =? NO_MAPPING then NO_MAPPING else ppn mod 2 ^ 51.

(** When the update resumed at level [l] cannot fail to get its frames: it
    removes, or [n] slots are left and their [mmap] calls succeed, or the
    path is already there. *)
Definition update_pre (idx : list Z) (p : Z) (n l : nat) (t : Z)
    (s : phys) : Prop :=
  p = NO_MAPPING \/
  (nalloc s + Z.of_nat n <= NPAGES /\ mmap_next s (Z.of_nat n)) \/
  exists tb, query_loop n l idx (InFrame t 0) s = Ok (Completed tb).

(** What the update resumed at level [l] in table [t] achieves, from [s] to
    [s']: the invariant is kept with more positions, only slots on the path
    change, the path answers the stored value, an insertion leaves the path
    in place, and every other index vector below [t] answers as before. *)
Definition update_post (pos : gmap Z (list Z)) (idx : list Z) (p : Z)
    (n l : nat) (t : Z) (s s' : phys) (pos' : gmap Z (list Z)) : Prop :=
  table_inv s' pos' /\ pos ⊆ pos' /\
  (forall f i, 0 <= f < nalloc s -> ~ on_path pos idx l f i ->
     peek s' f i = peek s f i) /\
  query_from n l idx t s' = Ok (stored p) /\
  (p <> NO_MAPPING ->
     exists tb, query_loop n l idx (InFrame t 0) s' = Ok (Completed tb)) /\
  (forall idx2, good_indices idx2 -> take l idx2 = take l idx -> idx2 <> idx ->
     query_from n l idx2 t s' = query_from n l idx2 t s).

(** The two kinds of loop in [main] of os.c, with the base VPN, the base PPN
    and the number of rounds left as parameters:
    [for (i; i < count; ++i) page_table_update(pt, vpn_base + i, ppn_base + i)]
    and
    [for (i; i < count; ++i)
       assert(page_table_query(pt, vpn_base + i) == ppn_base + i)]. *)
Fixpoint map_loop (n : nat) (i pt vpn_base ppn_base : Z) (s : phys)
    : result phys :=
  match n with
  | O => Ok s
  | S n' =>
      s' ← page_table_update pt (add64 vpn_base i) (add64 ppn_base i) s;
      map_loop n' (add64 i 1) pt vpn_base ppn_base s'
  end.

Fixpoint assert_loop (n : nat) (i pt vpn_base ppn_base : Z) (s : phys)
    : checked :=
  match n with
  | O => Passed
  | S n' =>
      match page_table_query pt (add64 vpn_base i) s with
      | Ok r =>
          if r =? add64 ppn_base i
          then assert_loop n' (add64 i 1) pt vpn_base ppn_base s
          else Assert_failed
      | Fatal e => Stopped e
      end
  end.

(** [main] of os.c: [Passed] stands for reaching [return 0]. *)
Definition main : checked :=
  let query := page_table_query in
  let update := page_table_update in
  doing (alloc_page_frame boot) (fun '(pt, s) =>
  expect (query pt 0xcafecafeeee s) NO_MAPPING (
  expect (query pt 0xfffecafeeee s) NO_MAPPING (
  expect (query pt 0xcafecafeeff s) NO_MAPPING (
  doing (update pt 0xcafecafeeee 0xf00d s) (fun s =>
  expect (query pt 0xcafecafeeee s) 0xf00d (
  expect (query pt 0xfffecafeeee s) NO_MAPPING (
  expect (query pt 0xcafecafeeff s) NO_MAPPING (
  doing (update pt 0xcafecafeeee NO_MAPPING s) (fun s =>
  expect (query pt 0xcafecafeeee s) NO_MAPPING (
  expect (query pt 0xfffecafeeee s) NO_MAPPING (
  expect (query pt 0xcafecafeeff s) NO_MAPPING (
  doing (alloc_page_frame s) (fun '(pt, s) =>
  expect (query pt 0xcafecafeeee s) NO_MAPPING (
  doing (update pt 0xcafecafeeee 0xf00d s) (fun s =>
  expect (query pt 0xcafecafeeee s) 0xf00d (
  doing (update pt 0xcafecafeeee NO_MAPPING s) (fun s =>
  expect (query pt 0xcafecafeeee s) NO_MAPPING (
  doing (update pt 0x1 0xdead s) (fun s =>
  doing (update pt 0x2 0xbeef s) (fun s =>
  doing (update pt 0x3 0x1337 s) (fun s =>
  expect (query pt 0x1 s) 0xdead (
  expect (query pt 0x2 s) 0xbeef (
  expect (query pt 0x3 s) 0x1337 (
  doing (update pt 0x2 0xc0de s) (fun s =>
  expect (query pt 0x2 s) 0xc0de (
  doing (update pt 0x3 NO_MAPPING s) (fun s =>
  expect (query pt 0x3 s) NO_MAPPING (
  doing (update pt 0x0 0xabc s) (fun s =>
  expect (query pt 0x0 s) 0xabc (
  let max_vpn := sub64 (shl64 1 50) 1 in
  doing (update pt max_vpn 0x789 s) (fun s =>
  expect (query pt max_vpn s) 0x789 (
  let vpn_base := 0x123456789AB in
  doing (map_loop 10 0 pt vpn_base 0x1000 s) (fun s =>
  after (assert_loop 10 0 pt vpn_base 0x1000 s) (
  doing (map_loop 1024 0 pt 0x555550000 0x2000 s) (fun s =>
  after (assert_loop 1024 0 pt 0x555550000 0x2000 s) (
  let tricky_vpn :=
    Z.lor (Z.lor (Z.lor (Z.lor (shl64 0x1FF 40) (shl64 0x1FF 30))
                    (shl64 0x1FF 20)) (shl64 0x1FF 10)) 0x1FF in
  doing (update pt tricky_vpn 0x7FFF s) (fun s =>
  expect (query pt tricky_vpn s) 0x7FFF (
  doing (update pt tricky_vpn NO_MAPPING s) (fun s =>
  expect (query pt tricky_vpn s) NO_MAPPING (
  doing (update pt 0x11111111111 0x1a2b s) (fun s =>
  doing (update pt 0x11111111222 0x1a2c s) (fun s =>
  doing (update pt 0x11111113333 0x1a2d s) (fun s =>
  expect (query pt 0x11111111111 s) 0x1a2b (
  expect (query pt 0x11111111222 s) 0x1a2c (
  expect (query pt 0x11111113333 s) 0x1a2d (
  doing (update pt 0xABCDEF 0x9876 s) (fun s =>
  expect (query pt 0xABCDEF s) 0x9876 (
  doing (update pt 0xABCDEF NO_MAPPING s) (fun s =>
  expect (query pt 0xABCDEF s) NO_MAPPING (
  doing (update pt 0xF0F0F0 0xAAAA s) (fun s =>
  expect (query pt 0xF0F0F0 s) 0xAAAA (
  doing (update pt 0xF0F0F0 0xBBBB s) (fun s =>
  expect (query pt 0xF0F0F0 s) 0xBBBB (
  doing (update pt 0xF0F0F0 NO_MAPPING s) (fun s =>
  expect (query pt 0xF0F0F0 s) NO_MAPPING
  Passed))))))))))))))))))))))))))))))))))))))))))))))))))))))).

(** ** Facts of 64-bit arithmetic used by the walker *)

Lemma pow2_13 : 2 ^ 13 = 8192.
Proof. reflexivity. Qed.

Lemma pow2_51 : 2 ^ 51 = 2251799813685248.
Proof. reflexivity. Qed.

Lemma pow2_64 : 2 ^ 64 = 18446744073709551616.
Proof. reflexivity. Qed.

Lemma shl64_13 (x : Z) : shl64 x 13 = (x mod 2 ^ 51) * 2 ^ 13.
Proof.
  unfold shl64, wrap64. rewrite Z.shiftl_mul_pow2 by lia.
  replace (2 ^ 64) with (2 ^ 51 * 2 ^ 13) by reflexivity.
  rewrite Zmult_mod_distr_r. reflexivity.
Qed.

Lemma shiftr_shl64_13 (x : Z) : Z.shiftr (shl64 x 13) 13 = x mod 2 ^ 51.
Proof.
  rewrite shl64_13, Z.shiftr_div_pow2 by lia.
  apply Z.div_mul. rewrite pow2_13. lia.
Qed.

(** The PTE written for frame number [x]: valid, and it decodes to the low
    51 bits of [x]. *)
Lemma pte_valid (x : Z) : (Z.land (Z.lor (shl64 x 13) 1) 1 =? 0) = false.
Proof.
  apply Z.eqb_neq. rewrite Z.land_lor_distr_l.
  change (Z.land 1 1) with 1. intros H.
  apply Z.lor_eq_0_iff in H. lia.
Qed.

Lemma pte_frame (x : Z) : Z.shiftr (Z.lor (shl64 x 13) 1) 13 = x mod 2 ^ 51.
Proof.
  rewrite Z.shiftr_lor. change (Z.shiftr 1 13) with 0.
  rewrite Z.lor_0_r. apply shiftr_shl64_13.
Qed.

Lemma frame_number_small (f : Z) :
  0 <= f < NPAGES -> (f + BIAS) mod 2 ^ 51 = f + BIAS.
Proof.
  unfold NPAGES, BIAS. intros H. apply Z.mod_small. rewrite pow2_51. lia.
Qed.

Lemma add64_bias (f : Z) : 0 <= f < NPAGES -> add64 f BIAS = f + BIAS.
Proof.
  unfold add64, wrap64, NPAGES, BIAS. intros H.
  apply Z.mod_small. rewrite pow2_64. lia.
Qed.

(** The table pointer formed from the PPN of registry slot [f]. *)
Lemma phys_to_virt_ppn (s : phys) (f : Z) :
  0 <= f < NPAGES ->
  phys_to_virt s (shl64 (f + BIAS) 13) = slot s f.
Proof.
  intros Hf. unfold phys_to_virt.
  rewrite shiftr_shl64_13, shl64_13, frame_number_small by assumption.
  replace (sub64 (f + BIAS) BIAS) with f.
  2:{ unfold sub64, wrap64. replace (f + BIAS - BIAS) with f by lia.
      symmetry. apply Z.mod_small. unfold NPAGES in Hf. rewrite pow2_64. lia. }
  destruct (Z.ltb_spec f NPAGES) as [_|]; [|lia].
  change 0x1fff with (Z.ones 13). rewrite Z.land_ones by lia.
  rewrite Z.mod_mul by (rewrite pow2_13; lia).
  unfold slot. destruct (pages s !! f); reflexivity.
Qed.

(** ** The frame store: reads, writes and allocation *)

Lemma load64_frame (s : phys) (f i : Z) :
  load64 s (InFrame f 0) i =
  match peek s f i with Some w => Ok w | None => Fatal Fault end.
Proof. reflexivity. Qed.

Lemma store64_frame (s : phys) (f i w : Z) :
  store64 s (InFrame f 0) i w =
  match poke s f i w with Some s' => Ok s' | None => Fatal Fault end.
Proof. reflexivity. Qed.

Lemma peek_Some_slot (s : phys) (f i : Z) :
  is_Some (peek s f i) -> slot s f = InFrame f 0.
Proof.
  unfold peek, slot. intros [w Hw].
  destruct (0 <=? i); [|discriminate].
  destruct (pages s !! f); [reflexivity|discriminate].
Qed.

Lemma poke_total (s : phys) (f i w : Z) :
  is_Some (peek s f i) -> is_Some (poke s f i w).
Proof.
  unfold peek, poke. intros [e He].
  destruct (Z.leb_spec 0 i) as [Hi|]; [|discriminate].
  destruct (pages s !! f) as [fr|]; [|discriminate]. simpl in He.
  apply lookup_lt_Some in He.
  destruct (Z.ltb_spec i (Z.of_nat (length fr))); [simpl; eauto|lia].
Qed.

Lemma poke_nalloc (s s' : phys) (f i w : Z) :
  poke s f i w = Some s' -> nalloc s' = nalloc s.
Proof.
  unfold poke. intros H. destruct (pages s !! f); [|discriminate].
  destruct (_ && _); [|discriminate]. by inversion H.
Qed.

Lemma peek_poke_eq (s s' : phys) (f i w : Z) :
  poke s f i w = Some s' -> peek s' f i = Some w.
Proof.
  unfold poke, peek. intros H.
  destruct (pages s !! f) as [fr|] eqn:Hfr; [|discriminate].
  destruct (Z.leb_spec 0 i) as [Hi|]; [|discriminate].
  destruct (Z.ltb_spec i (Z.of_nat (length fr))) as [Hl|]; [|discriminate].
  inversion H; subst; clear H. simpl.
  rewrite lookup_insert_eq. simpl.
  apply list_lookup_insert_eq. lia.
Qed.

Lemma peek_poke_ne (s s' : phys) (f i w f' i' : Z) :
  poke s f i w = Some s' -> ~ (f' = f /\ i' = i) ->
  peek s' f' i' = peek s f' i'.
Proof.
  unfold poke, peek. intros H Hne.
  destruct (pages s !! f) as [fr|] eqn:Hfr; [|discriminate].
  destruct (Z.leb_spec 0 i) as [Hi|]; [|discriminate].
  destruct (Z.ltb_spec i (Z.of_nat (length fr))) as [Hl|]; [|discriminate].
  inversion H; subst; clear H. simpl.
  destruct (Z.leb_spec 0 i') as [Hi'|]; [|reflexivity].
  destruct (decide (f' = f)) as [->|Hf].
  - rewrite lookup_insert_eq, Hfr. simpl.
    apply list_lookup_insert_ne. lia.
  - by rewrite lookup_insert_ne.
Qed.

Lemma alloc_page_frame_ok (s : phys) :
  0 <= nalloc s < NPAGES -> mmap_ok (nalloc s) = true ->
  alloc_page_frame s = Ok (nalloc s + BIAS, grown s).
Proof.
  intros H Hmmap. unfold alloc_page_frame, grown. rewrite Hmmap.
  destruct (Z.eqb_spec (nalloc s) NPAGES); [lia|].
  destruct (Z.leb_spec 0 (nalloc s)); [|lia].
  destruct (Z.ltb_spec (nalloc s) NPAGES); [|lia]. simpl.
  rewrite add64_bias by assumption.
  replace (add64 (nalloc s) 1) with (nalloc s + 1); [reflexivity|].
  unfold add64, wrap64. symmetry. apply Z.mod_small.
  unfold NPAGES in H. rewrite pow2_64. lia.
Qed.

Lemma alloc_page_frame_inv (s s0 : phys) (root : Z) :
  alloc_page_frame s = Ok (root, s0) ->
  0 <= nalloc s < NPAGES /\ root = nalloc s + BIAS /\ s0 = grown s.
Proof.
  intros H.
  assert (0 <= nalloc s < NPAGES /\ mmap_ok (nalloc s) = true) as [Hn Hm].
  { unfold alloc_page_frame in H.
    destruct (Z.eqb_spec (nalloc s) NPAGES); [discriminate|].
    destruct (mmap_ok (nalloc s)); [|discriminate].
    destruct (Z.leb_spec 0 (nalloc s)); [|discriminate].
    destruct (Z.ltb_spec (nalloc s) NPAGES); [split; [lia|reflexivity]|discriminate]. }
  rewrite alloc_page_frame_ok in H by assumption.
  inversion H. auto.
Qed.

(** How [alloc_page_frame] can end without returning, on a registry within
    its capacity: the registry is full, or [mmap] failed. *)
Lemma alloc_page_frame_fatal (s : phys) (e : fatal) :
  0 <= nalloc s <= NPAGES -> alloc_page_frame s = Fatal e ->
  (e = Exhausted /\ nalloc s = NPAGES) \/
  (e = Mmap_failed /\ nalloc s < NPAGES /\ mmap_ok (nalloc s) = false).
Proof.
  intros Hn H. unfold alloc_page_frame in H.
  destruct (Z.eqb_spec (nalloc s) NPAGES) as [Hfull|Hfree].
  - left. by inversion H.
  - destruct (mmap_ok (nalloc s)) eqn:Hm.
    + destruct (Z.leb_spec 0 (nalloc s)); [|lia].
      destruct (Z.ltb_spec (nalloc s) NPAGES); [discriminate|lia].
    + right. inversion H. split; [reflexivity|]. split; [lia|reflexivity].
Qed.

Lemma peek_grown_new (s : phys) (i : Z) :
  0 <= i < 1024 -> peek (grown s) (nalloc s) i = Some 0.
Proof.
  intros Hi. unfold peek, grown. simpl.
  destruct (Z.leb_spec 0 i); [|lia].
  rewrite lookup_insert_eq. simpl.
  apply lookup_replicate_2. unfold ENTRIES_PER_LEVEL. lia.
Qed.

Lemma peek_grown_old (s : phys) (f i : Z) :
  f <> nalloc s -> peek (grown s) f i = peek s f i.
Proof.
  intros Hf. unfold peek, grown. simpl.
  by rewrite lookup_insert_ne.
Qed.

(** ** Index vectors *)

Lemma good_take_length (idx : list Z) (k : nat) :
  good_indices idx -> (k <= 5)%nat -> length (take k idx) = k.
Proof.
  intros [Hlen _] Hk. rewrite length_take, Hlen.
  unfold PAGE_TABLE_LEVELS. lia.
Qed.

Lemma good_take_S (idx : list Z) (k : nat) :
  good_indices idx -> (k < 5)%nat ->
  take (S k) idx = take k idx ++ [idx !!! k].
Proof.
  intros [Hlen _] Hk. apply take_S_r.
  apply list_lookup_lookup_total_lt. rewrite Hlen.
  unfold PAGE_TABLE_LEVELS. lia.
Qed.

Lemma good_take_inj (a b : list Z) (j k : nat) :
  good_indices a -> good_indices b -> (j <= 5)%nat -> (k <= 5)%nat ->
  take j a = take k b -> j = k.
Proof.
  intros Ha Hb Hj Hk H. apply (f_equal length) in H.
  by rewrite !good_take_length in H.
Qed.

Lemma good_take_lookup (a b : list Z) (k l : nat) :
  good_indices a -> good_indices b -> (l < k)%nat -> (k <= 5)%nat ->
  take k a = take k b -> a !!! l = b !!! l.
Proof.
  intros [Ha _] [Hb _] Hl Hk H.
  assert (a !! l = b !! l) as Hab.
  { rewrite <- (lookup_take_lt a k l), <- (lookup_take_lt b k l) by lia.
    by rewrite H. }
  rewrite !list_lookup_total_alt. by rewrite Hab.
Qed.

Lemma good_take_S_eq (a b : list Z) (k : nat) :
  good_indices a -> good_indices b -> (k < 5)%nat ->
  take k a = take k b -> a !!! k = b !!! k ->
  take (S k) a = take (S k) b.
Proof.
  intros Ha Hb Hk Ht Hx. rewrite !good_take_S by assumption. congruence.
Qed.

Lemma good_indices_ext (a b : list Z) :
  good_indices a -> good_indices b ->
  take 4 a = take 4 b -> a !!! 4%nat = b !!! 4%nat -> a = b.
Proof.
  intros Ha Hb Ht Hx.
  pose proof (good_take_S_eq a b 4 Ha Hb ltac:(lia) Ht Hx) as H5.
  destruct Ha as [Ha _], Hb as [Hb _].
  rewrite <- (take_ge a 5), <- (take_ge b 5); [assumption | |];
    unfold PAGE_TABLE_LEVELS in *; lia.
Qed.

Lemma good_index_range (idx : list Z) (k : nat) :
  good_indices idx -> (k <= 4)%nat -> 0 <= idx !!! k < 1024.
Proof.
  intros [_ H] Hk. apply H. unfold PAGE_TABLE_LEVELS. lia.
Qed.

(** Closes a goal [0 <= idx !!! k < 1024] for a good index vector. *)
Ltac index_range := apply good_index_range; [assumption | lia].

(** ** The table invariant *)

Lemma inv_present (s : phys) (pos : gmap Z (list Z)) (f : Z) (pre : list Z) (i : Z) :
  table_inv s pos -> pos !! f = Some pre -> 0 <= i < 1024 ->
  exists e, peek s f i = Some e.
Proof.
  intros Hinv Hf Hi. destruct (inv_frame _ _ Hinv _ _ Hf) as (_ & _ & Hp).
  destruct (Hp i Hi) as [e He]. eauto.
Qed.

Lemma inv_table_pointer (s : phys) (pos : gmap Z (list Z)) (f : Z) (pre : list Z) :
  table_inv s pos -> pos !! f = Some pre ->
  phys_to_virt s (shl64 (f + BIAS) 13) = InFrame f 0.
Proof.
  intros Hinv Hf. destruct (inv_frame _ _ Hinv _ _ Hf) as (Hr & _ & Hp).
  pose proof (inv_nalloc _ _ Hinv).
  rewrite phys_to_virt_ppn by lia.
  apply (peek_Some_slot s f 0). apply Hp. lia.
Qed.

(** Following a valid interior entry leads to the node one index deeper. *)
Lemma inv_descend (s : phys) (pos : gmap Z (list Z)) (f : Z) (pre : list Z) (i e : Z) :
  table_inv s pos -> pos !! f = Some pre -> (length pre < 4)%nat ->
  peek s f i = Some e -> Z.land e 1 <> 0 ->
  exists t, pos !! t = Some (pre ++ [i]) /\
    phys_to_virt s (shl64 (Z.shiftr e 13) 13) = InFrame t 0.
Proof.
  intros Hinv Hf Hl He Hv.
  destruct (inv_child _ _ Hinv _ _ _ _ Hf Hl He Hv) as (t & Ht & Hpos).
  exists t. split; [assumption|]. rewrite Ht.
  eapply inv_table_pointer; eassumption.
Qed.

(** Writing a leaf entry keeps the invariant. *)
Lemma inv_poke_leaf (s s' : phys) (pos : gmap Z (list Z)) (t : Z) (pre : list Z) (i w : Z) :
  table_inv s pos -> pos !! t = Some pre -> length pre = 4%nat ->
  poke s t i w = Some s' -> table_inv s' pos.
Proof.
  intros Hinv Ht Hl Hp. split.
  - rewrite (poke_nalloc _ _ _ _ _ Hp). apply Hinv.
  - intros f pre' Hf. rewrite (poke_nalloc _ _ _ _ _ Hp).
    destruct (inv_frame _ _ Hinv _ _ Hf) as (Hr & Hlen & Hpres).
    split; [assumption|]. split; [assumption|]. intros j Hj.
    destruct (decide (f = t /\ j = i)) as [[-> ->]|Hne].
    + rewrite (peek_poke_eq _ _ _ _ _ Hp). eauto.
    + rewrite (peek_poke_ne _ _ _ _ _ _ _ Hp Hne). auto.
  - intros f pre' j e Hf Hlen He Hv.
    assert (f <> t) as Hft by (intros ->; rewrite Ht in Hf; inversion Hf; subst; lia).
    rewrite (peek_poke_ne _ _ _ _ _ _ _ Hp) in He by tauto.
    eapply inv_child; eassumption.
Qed.

(** Allocating a frame and linking it below an interior node keeps the
    invariant, with the new frame placed one index deeper. *)
Lemma inv_link (s s2 : phys) (pos : gmap Z (list Z)) (t : Z) (pre : list Z) (i : Z) :
  table_inv s pos -> pos !! t = Some pre -> (length pre < 4)%nat ->
  nalloc s < NPAGES ->
  poke (grown s) t i (Z.lor (shl64 (nalloc s + BIAS) 13) 1) = Some s2 ->
  table_inv s2 (<[nalloc s := pre ++ [i]]> pos).
Proof.
  intros Hinv Ht Hl Hroom Hp.
  pose proof (inv_nalloc _ _ Hinv) as Hn.
  assert (nalloc s2 = nalloc s + 1) as Hn2
    by (rewrite (poke_nalloc _ _ _ _ _ Hp); reflexivity).
  assert (t <> nalloc s) as Htn
    by (destruct (inv_frame _ _ Hinv _ _ Ht) as (? & _); lia).
  split.
  - lia.
  - intros f pre' Hf. rewrite Hn2.
    destruct (decide (f = nalloc s)) as [->|Hfn].
    + rewrite lookup_insert_eq in Hf. inversion Hf; subst pre'; clear Hf.
      split; [lia|]. split; [rewrite length_app; simpl; lia|].
      intros j Hj.
      rewrite (peek_poke_ne _ _ _ _ _ _ _ Hp) by (intros [? ?]; congruence).
      rewrite peek_grown_new by assumption. eauto.
    + rewrite lookup_insert_ne in Hf by congruence.
      destruct (inv_frame _ _ Hinv _ _ Hf) as (Hr & Hlen & Hpres).
      split; [lia|]. split; [assumption|]. intros j Hj.
      destruct (decide (f = t /\ j = i)) as [[-> ->]|Hne].
      * rewrite (peek_poke_eq _ _ _ _ _ Hp). eauto.
      * rewrite (peek_poke_ne _ _ _ _ _ _ _ Hp Hne).
        rewrite peek_grown_old by assumption. auto.
  - intros f pre' j e Hf Hlen He Hv.
    destruct (decide (f = nalloc s)) as [->|Hfn].
    + rewrite (peek_poke_ne _ _ _ _ _ _ _ Hp) in He by (intros [? ?]; congruence).
      unfold peek in He. destruct (Z.leb_spec 0 j); [|discriminate].
      unfold grown in He. simpl in He. rewrite lookup_insert_eq in He.
      simpl in He. apply lookup_replicate_1 in He as [-> _].
      exfalso. apply Hv. reflexivity.
    + rewrite lookup_insert_ne in Hf by congruence.
      destruct (decide (f = t /\ j = i)) as [[-> ->]|Hne].
      * rewrite (peek_poke_eq _ _ _ _ _ Hp) in He.
        inversion He; subst e; clear He.
        exists (nalloc s). rewrite pte_frame, frame_number_small by lia.
        rewrite lookup_insert_eq. split; [reflexivity|]. congruence.
      * rewrite (peek_poke_ne _ _ _ _ _ _ _ Hp Hne) in He.
        rewrite peek_grown_old in He by assumption.
        destruct (inv_child _ _ Hinv _ _ _ _ Hf Hlen He Hv) as (t' & Hsh & Ht').
        exists t'. split; [assumption|].
        rewrite lookup_insert_ne; [assumption|].
        intros <-. destruct (inv_frame _ _ Hinv _ _ Ht') as (? & _). lia.
Qed.

(** ** The walk of [page_table_query], one level at a time *)

Lemma query_from_leaf (l : nat) (idx : list Z) (t : Z) (s : phys) :
  query_from 0 l idx t s =
  match peek s t (idx !!! 4%nat) with
  | Some e => if Z.land e 1 =? 0 then Ok NO_MAPPING else Ok (Z.shiftr e 13)
  | None => Fatal Fault
  end.
Proof.
  unfold query_from. simpl. rewrite load64_frame.
  destruct (peek s t (idx !!! 4%nat)); reflexivity.
Qed.

Lemma query_from_step (n l : nat) (idx : list Z) (t : Z) (s : phys) :
  query_from (S n) l idx t s =
  match peek s t (idx !!! l) with
  | Some e =>
      if Z.land e 1 =? 0 then Ok NO_MAPPING
      else query_loop n (S l) idx (phys_to_virt s (shl64 (Z.shiftr e 13) 13)) s
             ≫= finish_query idx s
  | None => Fatal Fault
  end.
Proof.
  unfold query_from. simpl. rewrite load64_frame.
  unfold mbind at 2. unfold result_bind.
  destruct (peek s t (idx !!! l)) as [e|]; [|reflexivity].
  destruct (Z.land e 1 =? 0); reflexivity.
Qed.

(** A table of zeros answers [NO_MAPPING] for every index vector. *)
Lemma query_from_zero (n l : nat) (idx : list Z) (t : Z) (s : phys) :
  good_indices idx -> (l + n = 4)%nat ->
  (forall j, 0 <= j < 1024 -> peek s t j = Some 0) ->
  query_from n l idx t s = Ok NO_MAPPING.
Proof.
  intros Hidx Hl Hz. destruct n.
  - rewrite query_from_leaf, Hz; [reflexivity|index_range].
  - rewrite query_from_step, Hz; [reflexivity|index_range].
Qed.

(** The answer depends only on the slots that lie on the path. *)
Lemma query_from_agree (pos : gmap Z (list Z)) (idx : list Z) (s s' : phys) :
  table_inv s pos -> good_indices idx ->
  forall n l t, (l + n = 4)%nat -> pos !! t = Some (take l idx) ->
  (forall k f, (l <= k <= 4)%nat -> pos !! f = Some (take k idx) ->
     peek s' f (idx !!! k) = peek s f (idx !!! k)) ->
  query_from n l idx t s' = query_from n l idx t s.
Proof.
  intros Hinv Hidx. induction n as [|n IH]; intros l t Hl Ht Hsame.
  - rewrite !query_from_leaf. assert (l = 4%nat) as -> by lia.
    by rewrite (Hsame 4%nat t) by (auto; lia).
  - rewrite !query_from_step. rewrite (Hsame l t) by (auto; lia).
    destruct (peek s t (idx !!! l)) as [e|] eqn:He; [|reflexivity].
    destruct (Z.eqb_spec (Z.land e 1) 0) as [|Hv]; [reflexivity|].
    assert (length (take l idx) < 4)%nat as Hlen
      by (rewrite good_take_length by (auto; lia); lia).
    destruct (inv_child _ _ Hinv _ _ _ _ Ht Hlen He Hv) as (t' & Hsh & Ht').
    rewrite <- good_take_S in Ht' by (auto; lia).
    rewrite Hsh.
    rewrite (inv_table_pointer s pos t' _ Hinv Ht').
    destruct (inv_frame _ _ Hinv _ _ Ht') as (Hr & _ & Hpres).
    pose proof (inv_nalloc _ _ Hinv).
    rewrite phys_to_virt_ppn by lia.
    rewrite (peek_Some_slot s' t' (idx !!! S l)).
    2:{ rewrite (Hsame (S l) t') by (auto; lia). apply Hpres. index_range. }
    apply (IH (S l) t'); [lia|assumption|].
    intros k f Hk. apply Hsame. lia.
Qed.

(** On a well-formed table the query returns. *)
Lemma query_from_total (pos : gmap Z (list Z)) (idx : list Z) (s : phys) :
  table_inv s pos -> good_indices idx ->
  forall n l t, (l + n = 4)%nat -> pos !! t = Some (take l idx) ->
  exists r, query_from n l idx t s = Ok r.
Proof.
  intros Hinv Hidx. induction n as [|n IH]; intros l t Hl Ht.
  - rewrite query_from_leaf.
    destruct (inv_present s pos t _ (idx !!! 4%nat) Hinv Ht) as [e ->].
    { index_range. }
    destruct (Z.land e 1 =? 0); eauto.
  - rewrite query_from_step.
    destruct (inv_present s pos t _ (idx !!! l) Hinv Ht) as [e He].
    { index_range. }
    rewrite He.
    destruct (Z.eqb_spec (Z.land e 1) 0) as [|Hv]; [eauto|].
    assert (length (take l idx) < 4)%nat as Hlen
      by (rewrite good_take_length by (auto; lia); lia).
    destruct (inv_descend _ _ _ _ _ _ Hinv Ht Hlen He Hv) as (t' & Ht' & ->).
    rewrite <- good_take_S in Ht' by (auto; lia).
    apply (IH (S l) t'); [lia|assumption].
Qed.

Lemma query_loop_step (n l : nat) (idx : list Z) (t : Z) (s : phys) :
  query_loop (S n) l idx (InFrame t 0) s =
  match peek s t (idx !!! l) with
  | Some e =>
      if Z.land e 1 =? 0 then Ok (Returned NO_MAPPING)
      else query_loop n (S l) idx (phys_to_virt s (shl64 (Z.shiftr e 13) 13)) s
  | None => Fatal Fault
  end.
Proof.
  simpl. rewrite load64_frame.
  destruct (peek s t (idx !!! l)) as [e|]; reflexivity.
Qed.

(** ** The walk of [page_table_update], one level at a time *)

Lemma update_from_leaf (l : nat) (idx : list Z) (t p : Z) (s : phys) :
  update_from 0 l idx t p s =
  match poke s t (idx !!! 4%nat)
          (if p =? NO_MAPPING then 0 else Z.lor (shl64 p 13) 1) with
  | Some s' => Ok s'
  | None => Fatal Fault
  end.
Proof.
  unfold update_from. simpl. unfold finish_update. simpl.
  destruct (p =? NO_MAPPING); apply store64_frame.
Qed.

Lemma update_from_step (n l : nat) (idx : list Z) (t p : Z) (s : phys) :
  update_from (S n) l idx t p s =
  match peek s t (idx !!! l) with
  | Some e =>
      if Z.land e 1 =? 0 then
        if p =? NO_MAPPING then Ok s
        else
          match alloc_page_frame s with
          | Ok (new_pt, s1) =>
              match poke s1 t (idx !!! l) (Z.lor (shl64 new_pt 13) 1) with
              | Some s2 =>
                  update_loop n (S l) idx
                    (phys_to_virt s2 (shl64 new_pt 13)) p s2
                  ≫= finish_update idx p
              | None => Fatal Fault
              end
          | Fatal e => Fatal e
          end
      else
        update_loop n (S l) idx
          (phys_to_virt s (shl64 (Z.shiftr e 13) 13)) p s
        ≫= finish_update idx p
  | None => Fatal Fault
  end.
Proof.
  unfold update_from. simpl. rewrite load64_frame.
  destruct (peek s t (idx !!! l)) as [e|]; [|reflexivity]. simpl.
  destruct (Z.land e 1 =? 0); [|reflexivity].
  destruct (p =? NO_MAPPING); [reflexivity|].
  destruct (alloc_page_frame s) as [[new_pt s1]|]; [|reflexivity]. simpl.
  rewrite store64_frame.
  destruct (poke s1 t (idx !!! l) _); reflexivity.
Qed.

(** ** Paths that part from the updated one *)

Lemma on_path_deeper (pos : gmap Z (list Z)) (idx : list Z) (l : nat) (f i : Z) :
  on_path pos idx (S l) f i -> on_path pos idx l f i.
Proof. intros (k & Hk & H). exists k. split; [lia|assumption]. Qed.

Lemma on_path_here (pos : gmap Z (list Z)) (idx : list Z) (l : nat) (t : Z) :
  (l <= 4)%nat -> pos !! t = Some (take l idx) ->
  on_path pos idx l t (idx !!! l).
Proof. intros Hl Ht. exists l. split; [lia|]. split; [assumption|reflexivity]. Qed.

Lemma not_on_path_above (pos : gmap Z (list Z)) (idx : list Z) (l : nat) (t i : Z) :
  good_indices idx -> (l <= 4)%nat -> pos !! t = Some (take l idx) ->
  ~ on_path pos idx (S l) t i.
Proof.
  intros Hidx Hl Ht (k & Hk & Hpos & _). rewrite Ht in Hpos.
  inversion Hpos as [Heq].
  apply (good_take_inj idx idx l k) in Heq; [lia|auto|auto|lia|lia].
Qed.

(** If [idx2] leaves the path of [idx] at level [l], a change confined to
    the path of [idx] is invisible to the walk of [idx2]. *)
Lemma query_from_diverge (pos : gmap Z (list Z)) (idx idx2 : list Z)
    (s s' : phys) (n l : nat) (t : Z) :
  table_inv s pos -> good_indices idx -> good_indices idx2 ->
  (l + n = 4)%nat -> pos !! t = Some (take l idx) ->
  take l idx2 = take l idx -> idx2 !!! l <> idx !!! l ->
  (forall f i, 0 <= f < nalloc s -> ~ on_path pos idx l f i ->
     peek s' f i = peek s f i) ->
  query_from n l idx2 t s' = query_from n l idx2 t s.
Proof.
  intros Hinv Hidx Hidx2 Hl Ht Htake Hne Hframe.
  apply (query_from_agree pos); [assumption|assumption|lia|congruence|].
  intros k f Hk Hf. apply Hframe.
  - by destruct (inv_frame _ _ Hinv _ _ Hf) as (? & _).
  - intros (k' & Hk' & Hf' & Hi). rewrite Hf in Hf'. inversion Hf' as [Heq].
    assert (k = k') as <- by (apply (good_take_inj idx2 idx); auto; lia).
    apply Hne.
    destruct (decide (k = l)) as [->|]; [assumption|].
    apply (good_take_lookup idx2 idx k l); auto; lia.
Qed.

(** ** The update, level by level *)

Lemma stored_remove : stored NO_MAPPING = NO_MAPPING.
Proof. unfold stored. by rewrite Z.eqb_refl. Qed.

Lemma stored_insert (p : Z) : p <> NO_MAPPING -> stored p = p mod 2 ^ 51.
Proof. intros H. unfold stored. by destruct (Z.eqb_spec p NO_MAPPING). Qed.

Lemma update_leaf (pos : gmap Z (list Z)) (idx : list Z) (p t : Z) (s : phys) :
  good_indices idx -> table_inv s pos -> pos !! t = Some (take 4 idx) ->
  exists s', update_from 0 4 idx t p s = Ok s' /\
    update_post pos idx p 0 4 t s s' pos.
Proof.
  intros Hidx Hinv Ht. rewrite update_from_leaf.
  assert (0 <= idx !!! 4%nat < 1024) as Hi
    by index_range.
  destruct (inv_present s pos t _ _ Hinv Ht Hi) as [e He].
  set (w := if p =? NO_MAPPING then 0 else Z.lor (shl64 p 13) 1).
  destruct (poke_total s t (idx !!! 4%nat) w) as [s' Hp]; [eauto|].
  rewrite Hp. exists s'. split; [reflexivity|].
  assert (length (take 4 idx) = 4%nat) as Hlen
    by (apply good_take_length; [assumption|lia]).
  split; [eapply inv_poke_leaf; eassumption|].
  split; [reflexivity|].
  split.
  { intros f i _ Hoff. apply (peek_poke_ne _ _ _ _ _ _ _ Hp).
    intros [-> ->]. apply Hoff. apply on_path_here; [lia|assumption]. }
  split.
  { rewrite query_from_leaf, (peek_poke_eq _ _ _ _ _ Hp). subst w.
    unfold stored. destruct (p =? NO_MAPPING); [reflexivity|].
    by rewrite pte_valid, pte_frame. }
  split.
  { intros _. simpl. eauto. }
  intros idx2 Hidx2 Htake Hne. rewrite !query_from_leaf.
  rewrite (peek_poke_ne _ _ _ _ _ _ _ Hp); [reflexivity|].
  intros [_ Heq]. apply Hne. by apply good_indices_ext.
Qed.

Lemma valid_eqb (e : Z) : Z.land e 1 <> 0 -> (Z.land e 1 =? 0) = false.
Proof. intros H. by apply Z.eqb_neq. Qed.

(** Through a valid interior entry the update of level [l] is the update of
    level [l + 1] in the child table. *)
Lemma update_step_valid (pos pos' : gmap Z (list Z)) (idx : list Z)
    (p : Z) (n l : nat) (t e t' : Z) (s s' : phys) :
  good_indices idx -> (l + S n = 4)%nat ->
  table_inv s pos -> pos !! t = Some (take l idx) ->
  peek s t (idx !!! l) = Some e -> Z.land e 1 <> 0 ->
  Z.shiftr e 13 = t' + BIAS -> pos !! t' = Some (take (S l) idx) ->
  update_post pos idx p n (S l) t' s s' pos' ->
  update_post pos idx p (S n) l t s s' pos'.
Proof.
  intros Hidx Hl Hinv Ht He Hv Hsh Ht' (Hinv' & Hsub & Hframe & Hq & Hmat & Hoth).
  assert (0 <= t < nalloc s) as Htr
    by (by destruct (inv_frame _ _ Hinv _ _ Ht) as (? & _)).
  assert (peek s' t (idx !!! l) = Some e) as He'.
  { rewrite Hframe; [assumption|assumption|].
    apply not_on_path_above; [assumption|lia|assumption]. }
  assert (phys_to_virt s (shl64 (Z.shiftr e 13) 13) = InFrame t' 0) as Hnext
    by (rewrite Hsh; eapply inv_table_pointer; eassumption).
  assert (phys_to_virt s' (shl64 (Z.shiftr e 13) 13) = InFrame t' 0) as Hnext'.
  { rewrite Hsh. eapply inv_table_pointer; [eassumption|].
    eapply lookup_weaken; eassumption. }
  assert (forall f i, 0 <= f < nalloc s -> ~ on_path pos idx l f i ->
            peek s' f i = peek s f i) as Hframe_l.
  { intros f i Hf Hoff. apply Hframe; [assumption|].
    intros Hon. apply Hoff. by apply on_path_deeper. }
  split; [assumption|]. split; [assumption|]. split; [assumption|].
  split.
  { rewrite query_from_step, He', valid_eqb, Hnext' by assumption. exact Hq. }
  split.
  { intros Hp. rewrite query_loop_step, He', valid_eqb, Hnext' by assumption.
    by apply Hmat. }
  intros idx2 Hidx2 Htake Hne.
  destruct (decide (idx2 !!! l = idx !!! l)) as [Heq|Hdiff].
  - rewrite !query_from_step, Heq, He, He', valid_eqb, Hnext, Hnext'
      by assumption.
    apply Hoth; [assumption| |assumption].
    apply good_take_S_eq; [assumption|assumption|lia|assumption|assumption].
  - by apply (query_from_diverge pos idx idx2 s s' (S n) l t).
Qed.

(** At an absent interior entry an insertion allocates frame [nalloc s],
    links it, and continues in it. *)
Lemma update_step_link (pos pos' : gmap Z (list Z)) (idx : list Z)
    (p : Z) (n l : nat) (t e : Z) (s s2 s' : phys) :
  good_indices idx -> (l + S n = 4)%nat ->
  table_inv s pos -> pos !! t = Some (take l idx) ->
  peek s t (idx !!! l) = Some e -> Z.land e 1 = 0 ->
  poke (grown s) t (idx !!! l) (Z.lor (shl64 (nalloc s + BIAS) 13) 1) = Some s2 ->
  update_post (<[nalloc s := take (S l) idx]> pos) idx p n (S l) (nalloc s)
    s2 s' pos' ->
  update_post pos idx p (S n) l t s s' pos'.
Proof.
  intros Hidx Hl Hinv Ht He Hv Hp (Hinv' & Hsub & Hframe & Hq & Hmat & Hoth).
  pose proof (inv_nalloc _ _ Hinv) as Hn.
  assert (0 <= t < nalloc s) as Htr
    by (by destruct (inv_frame _ _ Hinv _ _ Ht) as (? & _)).
  assert (pos !! nalloc s = None) as Hfresh.
  { destruct (pos !! nalloc s) as [pre|] eqn:Hpre; [|reflexivity].
    destruct (inv_frame _ _ Hinv _ _ Hpre) as (? & _). lia. }
  assert (nalloc s2 = nalloc s + 1) as Hn2
    by (rewrite (poke_nalloc _ _ _ _ _ Hp); reflexivity).
  assert (forall f i, 0 <= f < nalloc s -> ~ on_path pos idx l f i ->
            peek s' f i = peek s f i) as Hframe_l.
  { intros f i Hf Hoff. rewrite Hframe.
    - rewrite (peek_poke_ne _ _ _ _ _ _ _ Hp).
      + apply peek_grown_old. lia.
      + intros [-> ->]. apply Hoff. apply on_path_here; [lia|assumption].
    - lia.
    - intros (k & Hk & Hpos & Hi). apply Hoff.
      rewrite lookup_insert_ne in Hpos by lia.
      exists k. split; [lia|]. split; assumption. }
  assert (peek s' t (idx !!! l) =
          Some (Z.lor (shl64 (nalloc s + BIAS) 13) 1)) as He'.
  { rewrite Hframe.
    - apply (peek_poke_eq _ _ _ _ _ Hp).
    - lia.
    - apply not_on_path_above; [assumption|lia|].
      rewrite lookup_insert_ne by lia. assumption. }
  assert (phys_to_virt s'
            (shl64 (Z.shiftr (Z.lor (shl64 (nalloc s + BIAS) 13) 1) 13) 13)
          = InFrame (nalloc s) 0) as Hnext'.
  { assert (nalloc s < NPAGES) as Hroom.
    { destruct (inv_frame _ _ Hinv' (nalloc s) (take (S l) idx)) as (? & _).
      - eapply lookup_weaken; [apply lookup_insert_eq|eassumption].
      - pose proof (inv_nalloc _ _ Hinv'). lia. }
    rewrite pte_frame, frame_number_small by lia.
    eapply inv_table_pointer; [eassumption|].
    eapply lookup_weaken; [apply lookup_insert_eq|eassumption]. }
  split; [assumption|].
  split.
  { etrans; [|eassumption]. by apply insert_subseteq. }
  split; [assumption|].
  split.
  { rewrite query_from_step, He', pte_valid, Hnext'. exact Hq. }
  split.
  { intros Hne. rewrite query_loop_step, He', pte_valid, Hnext'. by apply Hmat. }
  intros idx2 Hidx2 Htake Hne.
  destruct (decide (idx2 !!! l = idx !!! l)) as [Heq|Hdiff].
  - rewrite !query_from_step, Heq, He, He', pte_valid, Hnext', Hv.
    change (query_from n (S l) idx2 (nalloc s) s' = Ok NO_MAPPING).
    rewrite Hoth; [|assumption| |assumption].
    + apply query_from_zero; [assumption|lia|]. intros j Hj.
      rewrite (peek_poke_ne _ _ _ _ _ _ _ Hp) by (intros [? ?]; lia).
      by apply peek_grown_new.
    + apply good_take_S_eq; [assumption|assumption|lia|assumption|assumption].
  - by apply (query_from_diverge pos idx idx2 s s' (S n) l t).
Qed.

(** A removal that meets an absent interior entry changes nothing. *)
Lemma update_step_remove (pos : gmap Z (list Z)) (idx : list Z)
    (n l : nat) (t e : Z) (s : phys) :
  table_inv s pos -> peek s t (idx !!! l) = Some e -> Z.land e 1 = 0 ->
  update_post pos idx NO_MAPPING (S n) l t s s pos.
Proof.
  intros Hinv He Hv.
  split; [assumption|]. split; [reflexivity|]. split; [reflexivity|].
  split; [by rewrite query_from_step, He, Hv, stored_remove|].
  split; [intros H; by destruct H|reflexivity].
Qed.

(** Whenever the update resumed at some level returns, it meets
    [update_post]. *)
Lemma update_from_ok (idx : list Z) (p : Z) :
  good_indices idx ->
  forall n l t s pos s', (l + n = 4)%nat ->
  table_inv s pos -> pos !! t = Some (take l idx) ->
  update_from n l idx t p s = Ok s' ->
  exists pos', update_post pos idx p n l t s s' pos'.
Proof.
  intros Hidx. induction n as [|n IH]; intros l t s pos s' Hl Hinv Ht Hrun.
  - assert (l = 4%nat) as -> by lia.
    destruct (update_leaf pos idx p t s Hidx Hinv Ht) as (s'' & Hu & Hpost).
    rewrite Hu in Hrun. inversion Hrun; subst s''. eauto.
  - assert (0 <= idx !!! l < 1024) as Hi
      by index_range.
    destruct (inv_present s pos t _ _ Hinv Ht Hi) as [e He].
    assert (0 <= t < nalloc s) as Htr
      by (by destruct (inv_frame _ _ Hinv _ _ Ht) as (? & _)).
    assert (length (take l idx) < 4)%nat as Hlen
      by (rewrite good_take_length by (auto; lia); lia).
    rewrite update_from_step, He in Hrun.
    destruct (Z.eqb_spec (Z.land e 1) 0) as [Hv|Hv].
    + destruct (Z.eqb_spec p NO_MAPPING) as [->|Hp].
      * inversion Hrun; subst s'. exists pos.
        eapply update_step_remove; eassumption.
      * destruct (alloc_page_frame s) as [[new_pt s1]|] eqn:Ha; [|discriminate].
        apply alloc_page_frame_inv in Ha as (Hroom & -> & ->).
        destruct (poke (grown s) t (idx !!! l) _) as [s2|] eqn:Hp2;
          [|discriminate].
        assert (table_inv s2 (<[nalloc s := take (S l) idx]> pos)) as Hinv2.
        { rewrite good_take_S by (auto; lia).
          exact (inv_link s s2 pos t _ _ Hinv Ht Hlen ltac:(lia) Hp2). }
        rewrite (inv_table_pointer s2 _ (nalloc s) _ Hinv2
                   (lookup_insert_eq _ _ _)) in Hrun.
        destruct (IH (S l) (nalloc s) s2 _ s' ltac:(lia) Hinv2
                    (lookup_insert_eq _ _ _) Hrun) as (pos' & Hpost).
        exists pos'. eapply update_step_link; eassumption.
    + destruct (inv_child _ _ Hinv _ _ _ _ Ht Hlen He Hv) as (t' & Hsh & Ht').
      rewrite <- good_take_S in Ht' by (auto; lia).
      rewrite Hsh, (inv_table_pointer s pos t' _ Hinv Ht') in Hrun.
      destruct (IH (S l) t' s pos s' ltac:(lia) Hinv Ht' Hrun) as (pos' & Hpost).
      exists pos'. eapply update_step_valid; eassumption.
Qed.

(** Under [update_pre] the update resumed at any level returns. *)
Lemma update_from_total (idx : list Z) (p : Z) :
  good_indices idx ->
  forall n l t s pos, (l + n = 4)%nat ->
  table_inv s pos -> pos !! t = Some (take l idx) ->
  update_pre idx p n l t s ->
  exists s', update_from n l idx t p s = Ok s'.
Proof.
  intros Hidx. induction n as [|n IH]; intros l t s pos Hl Hinv Ht Hpre.
  - assert (l = 4%nat) as -> by lia.
    destruct (update_leaf pos idx p t s Hidx Hinv Ht) as (s' & Hu & _). eauto.
  - assert (0 <= idx !!! l < 1024) as Hi
      by index_range.
    destruct (inv_present s pos t _ _ Hinv Ht Hi) as [e He].
    pose proof (inv_nalloc _ _ Hinv) as Hn.
    assert (0 <= t < nalloc s) as Htr
      by (by destruct (inv_frame _ _ Hinv _ _ Ht) as (? & _)).
    assert (length (take l idx) < 4)%nat as Hlen
      by (rewrite good_take_length by (auto; lia); lia).
    rewrite update_from_step, He.
    destruct (Z.eqb_spec (Z.land e 1) 0) as [Hv|Hv].
    + destruct (Z.eqb_spec p NO_MAPPING) as [->|Hp]; [eauto|].
      assert (nalloc s + Z.of_nat (S n) <= NPAGES /\
              mmap_next s (Z.of_nat (S n))) as [Hroom Hmm].
      { destruct Hpre as [H|[H|[tb H]]]; [by destruct Hp|assumption|].
        rewrite query_loop_step, He, Hv in H. discriminate. }
      rewrite alloc_page_frame_ok; [|lia|apply Hmm; lia].
      destruct (poke_total (grown s) t (idx !!! l)
                  (Z.lor (shl64 (nalloc s + BIAS) 13) 1)) as [s2 Hp2].
      { rewrite peek_grown_old by lia. eauto. }
      rewrite Hp2.
      assert (table_inv s2 (<[nalloc s := take (S l) idx]> pos)) as Hinv2.
      { rewrite good_take_S by (auto; lia).
        exact (inv_link s s2 pos t _ _ Hinv Ht Hlen ltac:(lia) Hp2). }
      rewrite (inv_table_pointer s2 _ (nalloc s) _ Hinv2 (lookup_insert_eq _ _ _)).
      apply (IH (S l) (nalloc s) s2 _ ltac:(lia) Hinv2 (lookup_insert_eq _ _ _)).
      right. left. unfold mmap_next.
      rewrite (poke_nalloc _ _ _ _ _ Hp2). simpl.
      split; [lia|]. intros k Hk. apply Hmm. lia.
    + destruct (inv_child _ _ Hinv _ _ _ _ Ht Hlen He Hv) as (t' & Hsh & Ht').
      rewrite <- good_take_S in Ht' by (auto; lia).
      assert (phys_to_virt s (shl64 (Z.shiftr e 13) 13) = InFrame t' 0) as Hnext
        by (rewrite Hsh; eapply inv_table_pointer; eassumption).
      rewrite Hnext.
      apply (IH (S l) t' s pos ltac:(lia) Hinv Ht').
      destruct Hpre as [H|[[H Hmm]|[tb H]]]; [by left| |].
      { right. left. split; [lia|]. intros k Hk. apply Hmm. lia. }
      right. right. exists tb.
      by rewrite query_loop_step, He, valid_eqb, Hnext in H.
Qed.

Lemma update_from_spec (idx : list Z) (p : Z) :
  good_indices idx ->
  forall n l t s pos, (l + n = 4)%nat ->
  table_inv s pos -> pos !! t = Some (take l idx) ->
  update_pre idx p n l t s ->
  exists s' pos', update_from n l idx t p s = Ok s' /\
    update_post pos idx p n l t s s' pos'.
Proof.
  intros Hidx n l t s pos Hl Hinv Ht Hpre.
  destruct (update_from_total idx p Hidx n l t s pos Hl Hinv Ht Hpre)
    as [s' Hrun].
  destruct (update_from_ok idx p Hidx n l t s pos s' Hl Hinv Ht Hrun)
    as [pos' Hpost].
  eauto.
Qed.

(** ** [split_vpn] *)

Lemma split_vpn_unfold (vpn : Z) :
  split_vpn vpn =
  [ Z.land (Z.shiftr (Z.shiftr (Z.shiftr (Z.shiftr vpn 10) 10) 10) 10) 0x3ff;
    Z.land (Z.shiftr (Z.shiftr (Z.shiftr vpn 10) 10) 10) 0x3ff;
    Z.land (Z.shiftr (Z.shiftr vpn 10) 10) 0x3ff;
    Z.land (Z.shiftr vpn 10) 0x3ff;
    Z.land vpn 0x3ff ].
Proof. reflexivity. Qed.

Lemma split_vpn_shifts (vpn : Z) :
  split_vpn vpn =
  [ Z.land (Z.shiftr vpn 40) 0x3ff; Z.land (Z.shiftr vpn 30) 0x3ff;
    Z.land (Z.shiftr vpn 20) 0x3ff; Z.land (Z.shiftr vpn 10) 0x3ff;
    Z.land vpn 0x3ff ].
Proof.
  rewrite split_vpn_unfold. rewrite !Z.shiftr_shiftr by lia. reflexivity.
Qed.

Lemma field_range (x : Z) : 0 <= Z.land x 0x3ff < 1024.
Proof.
  change 0x3ff with (Z.ones 10). rewrite Z.land_ones by lia.
  apply Z.mod_pos_bound. reflexivity.
Qed.

Lemma split_vpn_good (vpn : Z) : good_indices (split_vpn vpn).
Proof.
  rewrite split_vpn_shifts. split; [reflexivity|].
  intros k Hk. unfold PAGE_TABLE_LEVELS in Hk.
  do 5 (destruct k as [|k]; [apply field_range|]). lia.
Qed.

Lemma field_mod (v k : Z) :
  0 <= k -> k + 10 <= 50 ->
  Z.land (Z.shiftr (v mod 2 ^ 50) k) 0x3ff = Z.land (Z.shiftr v k) 0x3ff.
Proof.
  intros Hk Hk'. change 0x3ff with (Z.ones 10).
  apply Z.bits_inj'. intros n Hn.
  rewrite !Z.land_spec, !Z.shiftr_spec by lia.
  destruct (Z.ltb_spec n 10).
  - by rewrite Z.mod_pow2_bits_low by lia.
  - rewrite Z.ones_spec_high by lia. by rewrite !andb_false_r.
Qed.

Lemma split_vpn_mod (vpn : Z) : split_vpn (vpn mod 2 ^ 50) = split_vpn vpn.
Proof.
  rewrite !split_vpn_shifts.
  rewrite !field_mod by lia.
  rewrite <- (Z.shiftr_0_r (vpn mod 2 ^ 50)), <- (Z.shiftr_0_r vpn) at 1.
  by rewrite field_mod by lia.
Qed.

(** The five fields put together again are the low 50 bits of the VPN. *)
Lemma join_split_vpn (vpn : Z) : join_indices (split_vpn vpn) = vpn mod 2 ^ 50.
Proof.
  rewrite split_vpn_unfold. unfold join_indices. simpl.
  change 0x3ff with (Z.ones 10). rewrite !Z.land_ones by lia.
  rewrite !Z.shiftr_div_pow2 by lia.
  change (2 ^ 10) with 1024. change (2 ^ 50) with 1125899906842624.
  set (q1 := vpn / 1024). set (q2 := q1 / 1024). set (q3 := q2 / 1024).
  set (q4 := q3 / 1024).
  pose proof (Z.div_mod vpn 1024 ltac:(lia)) as E0.
  pose proof (Z.div_mod q1 1024 ltac:(lia)) as E1.
  pose proof (Z.div_mod q2 1024 ltac:(lia)) as E2.
  pose proof (Z.div_mod q3 1024 ltac:(lia)) as E3.
  pose proof (Z.div_mod q4 1024 ltac:(lia)) as E4.
  pose proof (Z.mod_pos_bound vpn 1024 ltac:(lia)).
  pose proof (Z.mod_pos_bound q1 1024 ltac:(lia)).
  pose proof (Z.mod_pos_bound q2 1024 ltac:(lia)).
  pose proof (Z.mod_pos_bound q3 1024 ltac:(lia)).
  pose proof (Z.mod_pos_bound q4 1024 ltac:(lia)).
  fold q1 in E0. fold q2 in E1. fold q3 in E2. fold q4 in E3.
  apply (Z.mod_unique vpn 1125899906842624 (q4 / 1024)); lia.
Qed.

Lemma split_vpn_inj (v1 v2 : Z) :
  0 <= v1 < 2 ^ 50 -> 0 <= v2 < 2 ^ 50 ->
  split_vpn v1 = split_vpn v2 -> v1 = v2.
Proof.
  intros H1 H2 H. apply (f_equal join_indices) in H.
  rewrite !join_split_vpn in H. by rewrite !Z.mod_small in H.
Qed.

(** ** The two entry points on a well-formed table *)

Lemma root_pointer (s : phys) (root : Z) :
  wf_table s root ->
  phys_to_virt s (shl64 root PAGE_SIZE_BITS) = InFrame (root - BIAS) 0.
Proof.
  intros (pos & Hroot & Hinv).
  replace root with (root - BIAS + BIAS) at 1 by lia.
  eapply inv_table_pointer; eassumption.
Qed.

Lemma page_table_update_from (root vpn ppn : Z) (s : phys) :
  wf_table s root ->
  page_table_update root vpn ppn s =
  update_from 4 0 (split_vpn vpn) (root - BIAS) ppn s.
Proof.
  intros Hwf. unfold page_table_update, update_from.
  rewrite (root_pointer s root Hwf).
  change (PAGE_TABLE_LEVELS - 1)%nat with 4%nat.
  destruct (update_loop 4 0 _ _ _ _) as [[ex s']|]; reflexivity.
Qed.

Lemma page_table_query_from (root vpn : Z) (s : phys) :
  wf_table s root ->
  page_table_query root vpn s =
  query_from 4 0 (split_vpn vpn) (root - BIAS) s.
Proof.
  intros Hwf. unfold page_table_query, query_from.
  by rewrite (root_pointer s root Hwf).
Qed.

(** A frame fresh from the allocator is a well-formed, empty table. *)
Lemma fresh_root_wf (s : phys) :
  0 <= nalloc s < NPAGES -> wf_table (grown s) (nalloc s + BIAS).
Proof.
  intros Hn. exists {[ nalloc s := [] ]}.
  replace (nalloc s + BIAS - BIAS) with (nalloc s) by lia.
  split; [apply lookup_singleton_eq|]. split.
  - simpl. lia.
  - intros f pre Hf. apply lookup_singleton_Some in Hf as [<- <-].
    simpl. split; [lia|]. split; [lia|].
    intros i Hi. rewrite peek_grown_new by assumption. eauto.
  - intros f pre i e Hf _ He Hv. apply lookup_singleton_Some in Hf as [<- <-].
    exfalso. apply Hv. unfold peek in He.
    destruct (Z.leb_spec 0 i); [|discriminate].
    unfold grown in He. simpl in He. rewrite lookup_insert_eq in He.
    simpl in He. by apply lookup_replicate_1 in He as [-> _].
Qed.

(** Allocating a further frame leaves a table well formed. *)
Lemma grown_keeps_wf (s : phys) (root : Z) :
  wf_table s root -> nalloc s < NPAGES -> wf_table (grown s) root.
Proof.
  intros (pos & Hroot & Hinv) Hroom. exists pos. split; [assumption|].
  pose proof (inv_nalloc _ _ Hinv) as Hn. split.
  - simpl. lia.
  - intros f pre Hf. destruct (inv_frame _ _ Hinv _ _ Hf) as (Hr & Hlen & Hpres).
    simpl. split; [lia|]. split; [assumption|]. intros i Hi.
    rewrite peek_grown_old by lia. auto.
  - intros f pre i e Hf Hlen He Hv.
    destruct (inv_frame _ _ Hinv _ _ Hf) as (Hr & _).
    rewrite peek_grown_old in He by lia.
    eapply inv_child; eassumption.
Qed.

(** Every update that returns leaves the table well formed. *)
Lemma update_keeps_wf (root vpn ppn : Z) (s s' : phys) :
  wf_table s root -> page_table_update root vpn ppn s = Ok s' ->
  wf_table s' root.
Proof.
  intros Hwf Hrun. pose proof Hwf as (pos & Hroot & Hinv).
  rewrite page_table_update_from in Hrun by assumption.
  destruct (update_from_ok (split_vpn vpn) ppn (split_vpn_good vpn)
              4 0 (root - BIAS) s pos s' eq_refl Hinv Hroot Hrun)
    as (pos' & Hinv' & Hsub & _).
  exists pos'. split; [|assumption]. eapply lookup_weaken; eassumption.
Qed.

(** Every table made by the interface is well formed. *)
Lemma built_wf (root : Z) (s : phys) : built root s -> wf_table s root.
Proof.
  induction 1 as [s s0 Ha|s vpn ppn s' _ IH Hu|s ppn s' _ IH Ha].
  - apply alloc_page_frame_inv in Ha as (Hn & -> & ->). by apply fresh_root_wf.
  - eapply update_keeps_wf; eassumption.
  - apply alloc_page_frame_inv in Ha as (Hn & _ & ->).
    apply grown_keeps_wf; [assumption|lia].
Qed.

(** The behaviour of [page_table_update] on a well-formed table, in terms of
    [page_table_query]. *)
Lemma page_table_update_spec (root vpn ppn : Z) (s : phys) :
  wf_table s root ->
  ppn = NO_MAPPING \/ (nalloc s + 4 <= NPAGES /\ mmap_next s 4) \/
    path_complete s root vpn ->
  exists s', page_table_update root vpn ppn s = Ok s' /\
    wf_table s' root /\
    page_table_query root vpn s' = Ok (stored ppn) /\
    (ppn <> NO_MAPPING -> path_complete s' root vpn) /\
    (forall v2, split_vpn v2 <> split_vpn vpn ->
       page_table_query root v2 s' = page_table_query root v2 s).
Proof.
  intros Hwf Hpre. pose proof Hwf as (pos & Hroot & Hinv).
  destruct (update_from_spec (split_vpn vpn) ppn (split_vpn_good vpn)
              4 0 (root - BIAS) s pos) as (s' & pos' & Hu & Hpost);
    [lia|assumption|assumption| |].
  { destruct Hpre as [H|[H|[tb H]]]; [by left|by right; left|].
    right. right. exists tb. by rewrite (root_pointer s root Hwf) in H. }
  destruct Hpost as (Hinv' & Hsub & _ & Hq & Hmat & Hoth).
  assert (wf_table s' root) as Hwf'.
  { exists pos'. split; [|assumption]. eapply lookup_weaken; eassumption. }
  exists s'. split; [by rewrite page_table_update_from|].
  split; [assumption|].
  split; [by rewrite page_table_query_from|].
  split.
  { intros Hne. destruct (Hmat Hne) as [tb Htb]. exists tb.
    by rewrite (root_pointer s' root Hwf'). }
  intros v2 Hv2. rewrite !page_table_query_from by assumption.
  apply Hoth; [apply split_vpn_good|reflexivity|assumption].
Qed.

(** ** The registry invariant *)

Lemma boot_store_ok : store_ok boot.
Proof.
  split; [unfold NPAGES; simpl; lia|].
  intros i. simpl. rewrite lookup_empty. split; [by intros [? ?]|lia].
Qed.

Lemma grown_store_ok (s : phys) :
  store_ok s -> nalloc s < NPAGES -> store_ok (grown s).
Proof.
  intros [Hn Hdom] Hroom. split; [simpl; lia|].
  intros i. simpl. destruct (decide (i = nalloc s)) as [->|Hne].
  - rewrite lookup_insert_eq. split; [lia|eauto].
  - rewrite lookup_insert_ne by congruence. rewrite Hdom. lia.
Qed.

Lemma update_loop_first_invalid (s : phys) (idx : list Z) (l : nat)
    (table : pointer) :
  first_invalid s idx l table ->
  forall n, (l + n = 4)%nat ->
  update_loop n l idx table NO_MAPPING s = Ok (Returned tt, s).
Proof.
  induction 1 as [l table e Hl Hload Hv|l table e Hl Hload Hv _ IH];
    intros n Hn; (destruct n as [|n]; [lia|]); simpl; rewrite Hload; simpl.
  - by rewrite Hv, !Z.eqb_refl.
  - rewrite valid_eqb by assumption. apply IH. lia.
Qed.

(** ** The claims *)

(** C1 (as amended): on a well-formed table with room for the four frames
    an insertion may need, whose [mmap] calls succeed, for every VPN [v] and
    every PPN [p] below 2^51 other than NO_MAPPING,
    [page_table_update root v p] returns and [page_table_query root v] then
    returns [p]. *)
Theorem update_then_query (root v p : Z) (s : phys) :
  wf_table s root -> nalloc s + 4 <= NPAGES -> mmap_next s 4 ->
  0 <= p < 2 ^ 51 -> p <> NO_MAPPING ->
  exists s', page_table_update root v p s = Ok s' /\
    page_table_query root v s' = Ok p.
Proof.
  intros Hwf Hroom Hmm Hp Hne.
  destruct (page_table_update_spec root v p s Hwf) as (s' & Hu & _ & Hq & _);
    [by right; left|].
  exists s'. split; [assumption|].
  by rewrite Hq, stored_insert, Z.mod_small.
Qed.

(** C2: a root just returned by [alloc_page_frame] is a zero-filled frame,
    and [page_table_query] on it returns NO_MAPPING for every VPN. *)
Theorem query_fresh_root (s s0 : phys) (root v : Z) :
  alloc_page_frame s = Ok (root, s0) ->
  (forall i, 0 <= i < 1024 -> peek s0 (root - BIAS) i = Some 0) /\
  page_table_query root v s0 = Ok NO_MAPPING.
Proof.
  intros H. apply alloc_page_frame_inv in H as (Hn & -> & ->).
  replace (nalloc s + BIAS - BIAS) with (nalloc s) by lia.
  split; [intros i Hi; by apply peek_grown_new|].
  rewrite page_table_query_from by (by apply fresh_root_wf).
  replace (nalloc s + BIAS - BIAS) with (nalloc s) by lia.
  apply query_from_zero; [apply split_vpn_good|lia|].
  intros j Hj. by apply peek_grown_new.
Qed.

(** C3: inserting a mapping for [v] and then removing it leaves [v] absent:
    both updates return (four free frames, [mmap] succeeding) and the query
    answers NO_MAPPING. *)
Theorem insert_remove_query (root v p : Z) (s : phys) :
  wf_table s root -> nalloc s + 4 <= NPAGES -> mmap_next s 4 ->
  p <> NO_MAPPING ->
  exists s1 s2, page_table_update root v p s = Ok s1 /\
    page_table_update root v NO_MAPPING s1 = Ok s2 /\
    page_table_query root v s2 = Ok NO_MAPPING.
Proof.
  intros Hwf Hroom Hmm Hne.
  destruct (page_table_update_spec root v p s Hwf) as (s1 & Hu1 & Hwf1 & _);
    [by right; left|].
  destruct (page_table_update_spec root v NO_MAPPING s1 Hwf1)
    as (s2 & Hu2 & _ & Hq & _); [by left|].
  exists s1, s2. split; [assumption|]. split; [assumption|].
  by rewrite Hq, stored_remove.
Qed.

(** C4 (as amended): remapping is last-write-wins.  After [v] was mapped to
    [p1] (four free frames, [mmap] succeeding), mapping it to a PPN [p2]
    below 2^51 returns without needing any further frame, and the query
    answers [p2]. *)
Theorem remap_last_wins (root v p1 p2 : Z) (s : phys) :
  wf_table s root -> nalloc s + 4 <= NPAGES -> mmap_next s 4 ->
  p1 <> NO_MAPPING -> p2 <> NO_MAPPING -> p1 <> p2 -> 0 <= p2 < 2 ^ 51 ->
  exists s1 s2, page_table_update root v p1 s = Ok s1 /\
    page_table_update root v p2 s1 = Ok s2 /\
    page_table_query root v s2 = Ok p2.
Proof.
  intros Hwf Hroom Hmm Hne1 Hne2 _ Hp2.
  destruct (page_table_update_spec root v p1 s Hwf)
    as (s1 & Hu1 & Hwf1 & _ & Hmat & _); [by right; left|].
  destruct (page_table_update_spec root v p2 s1 Hwf1)
    as (s2 & Hu2 & _ & Hq & _); [right; right; by apply Hmat|].
  exists s1, s2. split; [assumption|]. split; [assumption|].
  by rewrite Hq, stored_insert, Z.mod_small.
Qed.

(** C5: non-interference.  For distinct 50-bit VPNs [v1] and [v2], siblings
    under one leaf table included, an update at [v1] (a removal, or an
    insertion with four free frames and [mmap] succeeding) leaves the answer
    of the query at [v2] as it was. *)
Theorem update_other_vpn (root v1 v2 p1 : Z) (s : phys) :
  wf_table s root ->
  0 <= v1 < 2 ^ 50 -> 0 <= v2 < 2 ^ 50 -> v1 <> v2 ->
  p1 = NO_MAPPING \/ (nalloc s + 4 <= NPAGES /\ mmap_next s 4) ->
  exists s' r, page_table_update root v1 p1 s = Ok s' /\
    page_table_query root v2 s = Ok r /\
    page_table_query root v2 s' = Ok r.
Proof.
  intros Hwf Hv1 Hv2 Hne Hpre.
  destruct (page_table_update_spec root v1 p1 s Hwf)
    as (s' & Hu & _ & _ & _ & Hoth); [tauto|].
  pose proof Hwf as (pos & Hroot & Hinv).
  destruct (query_from_total pos (split_vpn v2) s Hinv (split_vpn_good v2)
              4 0 (root - BIAS)) as [r Hr]; [lia|assumption|].
  exists s', r. split; [assumption|].
  rewrite Hoth.
  - by rewrite page_table_query_from.
  - intros Heq. apply Hne. symmetry. by apply split_vpn_inj.
Qed.

(** C6: removing a mapping whose path has an invalid interior entry leaves
    the interior loop by its [return], allocates nothing, writes nothing and
    raises no error: the store is unchanged.  In particular this is so on
    an empty table, for every VPN. *)
Theorem remove_absent_noop :
  (forall s root v, path_incomplete s root v ->
     update_loop 4 0 (split_vpn v) (phys_to_virt s (shl64 root PAGE_SIZE_BITS))
       NO_MAPPING s = Ok (Returned tt, s) /\
     page_table_update root v NO_MAPPING s = Ok s) /\
  (forall s root s0 v, alloc_page_frame s = Ok (root, s0) ->
     path_incomplete s0 root v /\
     page_table_update root v NO_MAPPING s0 = Ok s0).
Proof.
  assert (forall s root v, path_incomplete s root v ->
     update_loop 4 0 (split_vpn v) (phys_to_virt s (shl64 root PAGE_SIZE_BITS))
       NO_MAPPING s = Ok (Returned tt, s) /\
     page_table_update root v NO_MAPPING s = Ok s) as Hnoop.
  { intros s root v Hpath.
    pose proof (update_loop_first_invalid _ _ _ _ Hpath 4%nat eq_refl) as Hloop.
    split; [assumption|]. unfold page_table_update.
    change (PAGE_TABLE_LEVELS - 1)%nat with 4%nat. by rewrite Hloop. }
  split; [assumption|].
  intros s root s0 v H.
  assert (path_incomplete s0 root v) as Hpath.
  { apply alloc_page_frame_inv in H as (Hn & -> & ->).
    unfold path_incomplete.
    rewrite (root_pointer _ _ (fresh_root_wf s Hn)).
    replace (nalloc s + BIAS - BIAS) with (nalloc s) by lia.
    apply invalid_here with (entry := 0); [lia| |reflexivity].
    rewrite load64_frame, peek_grown_new; [reflexivity|].
    apply split_vpn_good. unfold PAGE_TABLE_LEVELS. lia. }
  split; [assumption|]. by apply Hnoop.
Qed.

(** C7 (as amended): on a registry as the allocator leaves it,
    [phys_to_virt] returns NULL when the recovered index is outside the
    capacity of the registry (at least 2^20), and when the index is at or
    beyond the number of frames allocated and the byte offset is zero; for
    an index below the number of frames allocated it returns the owning
    frame at the byte offset given by the low 13 bits. *)
Theorem phys_to_virt_resolves (s : phys) (phys_addr : Z) :
  store_ok s ->
  let index := sub64 (Z.shiftr phys_addr 13) BIAS in
  let off := Z.land phys_addr 0x1fff in
  (NPAGES <= index -> phys_to_virt s phys_addr = NULL) /\
  (nalloc s <= index -> off = 0 -> phys_to_virt s phys_addr = NULL) /\
  (index < nalloc s ->
     phys_to_virt s phys_addr = InFrame index off /\ 0 <= off < 8192).
Proof.
  intros [Hn Hdom] index off. unfold phys_to_virt. fold index. fold off.
  assert (0 <= index) as Hindex.
  { unfold index, sub64, wrap64. apply Z.mod_pos_bound. reflexivity. }
  split; [|split].
  - intros H. by destruct (Z.ltb_spec index NPAGES); [lia|].
  - intros H Hoff. destruct (Z.ltb_spec index NPAGES); [|reflexivity].
    unfold slot. destruct (pages s !! index) as [fr|] eqn:Hfr.
    + assert (is_Some (pages s !! index)) as Hs by eauto.
      apply Hdom in Hs. lia.
    + by rewrite Hoff.
  - intros H. destruct (Z.ltb_spec index NPAGES); [|lia].
    unfold slot. destruct (pages s !! index) as [fr|] eqn:Hfr.
    + split; [reflexivity|]. unfold off.
      change 0x1fff with (Z.ones 13). rewrite Z.land_ones by lia.
      apply Z.mod_pos_bound. reflexivity.
    + assert (is_Some (pages s !! index)) as [? Hs] by (apply Hdom; lia).
      congruence.
Qed.

(** C8 (as amended): BIAS is not zero.  While fewer than 2^20 frames have
    been allocated and the [mmap] call succeeds, [alloc_page_frame] returns
    the counter plus BIAS and increments the counter, so the next PPN is one
    larger; the returned PPN is neither zero nor the reserved sentinel.
    When [mmap] fails the call ends fatally ("mmap failed") and returns no
    PPN.  With 2^20 frames allocated the call ends fatally ("out of physical
    memory") and returns no PPN. *)
Theorem alloc_page_frame_spec (s : phys) :
  0 <= nalloc s <= NPAGES -> sentinel_reserved NO_MAPPING ->
  BIAS <> 0 /\
  (nalloc s < NPAGES -> mmap_ok (nalloc s) = true ->
     alloc_page_frame s = Ok (nalloc s + BIAS, grown s) /\
     nalloc (grown s) = nalloc s + 1 /\
     nalloc s + BIAS <> NO_MAPPING /\ nalloc s + BIAS <> 0 /\
     forall p2 s2, alloc_page_frame (grown s) = Ok (p2, s2) ->
       p2 = nalloc s + BIAS + 1) /\
  (nalloc s < NPAGES -> mmap_ok (nalloc s) = false ->
     alloc_page_frame s = Fatal Mmap_failed) /\
  (nalloc s = NPAGES -> alloc_page_frame s = Fatal Exhausted).
Proof.
  intros Hn Hres. split; [discriminate|]. split; [|split].
  - intros Hroom Hmm. split; [apply alloc_page_frame_ok; [lia|assumption]|].
    split; [reflexivity|].
    split; [unfold sentinel_reserved in Hres; lia|].
    split; [unfold BIAS; lia|].
    intros p2 s2 H2. apply alloc_page_frame_inv in H2 as (_ & -> & _).
    simpl. lia.
  - intros Hroom Hmm. unfold alloc_page_frame. rewrite Hmm.
    by destruct (Z.eqb_spec (nalloc s) NPAGES); [lia|].
  - intros Hfull. unfold alloc_page_frame. by rewrite Hfull.
Qed.

(** C9: [split_vpn] yields the five 10-bit fields of the low 50 bits, most
    significant first: field [i] is [(vpn >> (10 * (4 - i))) & 0x3ff]; the
    bits from bit 50 up do not matter. *)
Theorem split_vpn_fields (vpn : Z) :
  split_vpn vpn =
    map (fun i => Z.land (Z.shiftr vpn (10 * (4 - i))) 0x3ff) [0; 1; 2; 3; 4] /\
  split_vpn (vpn mod 2 ^ 50) = split_vpn vpn.
Proof.
  split; [|apply split_vpn_mod].
  rewrite split_vpn_shifts. simpl. by rewrite Z.shiftr_0_r.
Qed.

(** C10: the leaf entry written for [p] is [(p << 13) | 1] as a 64-bit word,
    whose frame field is [p mod 2^51]: after an insertion of any [p] other
    than NO_MAPPING (four free frames, [mmap] succeeding) the query returns
    [p mod 2^51], which differs from [p] as soon as [p] is 2^51 or more. *)
Theorem leaf_keeps_low_51_bits (root v p : Z) (s : phys) :
  wf_table s root -> nalloc s + 4 <= NPAGES -> mmap_next s 4 ->
  p <> NO_MAPPING ->
  Z.shiftr (Z.lor (shl64 p PTE_FRAME_SHIFT) 1) PTE_FRAME_SHIFT = p mod 2 ^ 51 /\
  (exists s', page_table_update root v p s = Ok s' /\
     page_table_query root v s' = Ok (p mod 2 ^ 51)) /\
  (2 ^ 51 <= p -> p mod 2 ^ 51 <> p).
Proof.
  intros Hwf Hroom Hmm Hne. split; [apply pte_frame|]. split.
  - destruct (page_table_update_spec root v p s Hwf) as (s' & Hu & _ & Hq & _);
      [by right; left|].
    exists s'. split; [assumption|]. by rewrite Hq, stored_insert.
  - intros Hbig. pose proof (Z.mod_pos_bound p (2 ^ 51) ltac:(reflexivity)). lia.
Qed.

(** ** Further facts of the frame store *)

Lemma store64_inv (s s' : phys) (table : pointer) (i w : Z) :
  store64 s table i w = Ok s' -> exists f k, poke s f k w = Some s'.
Proof.
  unfold store64. destruct table as [a|f off]; [discriminate|].
  destruct (off mod 8 =? 0); [|discriminate].
  destruct (poke s f (off / 8 + i) w) as [s1|] eqn:Hp; [|discriminate].
  intros H. inversion H; subst s1. eauto.
Qed.

Lemma poke_pages (s s' : phys) (f i w g : Z) :
  poke s f i w = Some s' ->
  is_Some (pages s' !! g) <-> is_Some (pages s !! g).
Proof.
  unfold poke. intros H.
  destruct (pages s !! f) as [fr|] eqn:Hfr; [|discriminate].
  destruct (_ && _); [|discriminate]. inversion H; subst s'; clear H. simpl.
  destruct (decide (g = f)) as [->|Hne].
  - rewrite lookup_insert_eq, Hfr. split; eauto.
  - by rewrite lookup_insert_ne.
Qed.

(** Writing the word that is already there changes nothing. *)
Lemma poke_same (s : phys) (f i w : Z) :
  peek s f i = Some w -> poke s f i w = Some s.
Proof.
  unfold peek, poke. intros H.
  destruct (Z.leb_spec 0 i) as [Hi|]; [|discriminate].
  destruct (pages s !! f) as [fr|] eqn:Hfr; [|discriminate]. simpl in H.
  pose proof (lookup_lt_Some _ _ _ H) as Hlt.
  destruct (Z.ltb_spec i (Z.of_nat (length fr))); [|lia]. simpl.
  rewrite list_insert_id by assumption.
  rewrite insert_id by assumption. by destruct s.
Qed.

Lemma poke_store_ok (s s' : phys) (f i w : Z) :
  poke s f i w = Some s' -> store_ok s -> store_ok s'.
Proof.
  intros Hp [Hn Hdom]. split.
  - by rewrite (poke_nalloc _ _ _ _ _ Hp).
  - intros g. rewrite (poke_pages _ _ _ _ _ g Hp), (poke_nalloc _ _ _ _ _ Hp).
    apply Hdom.
Qed.

Lemma grown_pages (s : phys) (g : Z) :
  is_Some (pages s !! g) -> is_Some (pages (grown s) !! g).
Proof.
  intros H. simpl. destruct (decide (g = nalloc s)) as [->|Hne].
  - rewrite lookup_insert_eq. eauto.
  - by rewrite lookup_insert_ne.
Qed.

(** What the interior loop of an update does to the registry: the counter
    grows by at most one per level, no slot is given up, every returning
    run keeps the registry invariant, and a removal changes nothing. *)
Lemma update_loop_registry (n : nat) :
  forall l idx table p s ex s',
  update_loop n l idx table p s = Ok (ex, s') ->
  nalloc s <= nalloc s' <= nalloc s + Z.of_nat n /\
  (forall g, is_Some (pages s !! g) -> is_Some (pages s' !! g)) /\
  (store_ok s -> store_ok s') /\
  (p = NO_MAPPING -> s' = s).
Proof.
  induction n as [|n IH]; intros l idx table p s ex s' Hrun; simpl in Hrun.
  - inversion Hrun; subst. split; [simpl; lia|]. auto.
  - destruct (load64 s table (idx !!! l)) as [e|]; [|discriminate].
    simpl in Hrun. destruct (Z.land e 1 =? 0).
    + destruct (Z.eqb_spec p NO_MAPPING) as [->|Hp].
      * inversion Hrun; subst. split; [lia|]. auto.
      * destruct (alloc_page_frame s) as [[new_pt s1]|] eqn:Ha; [|discriminate].
        apply alloc_page_frame_inv in Ha as (Hroom & -> & ->). simpl in Hrun.
        destruct (store64 (grown s) table (idx !!! l) _) as [s2|] eqn:Hst;
          [|discriminate].
        simpl in Hrun. apply store64_inv in Hst as (f & k & Hp2).
        destruct (IH _ _ _ _ _ _ _ Hrun) as (Hc & Hpg & Hok & _).
        rewrite (poke_nalloc _ _ _ _ _ Hp2) in Hc. simpl in Hc.
        split; [lia|]. split; [|split; [|by intros ->]].
        -- intros g Hg. apply Hpg.
           apply (poke_pages _ _ _ _ _ g Hp2). by apply grown_pages.
        -- intros Hs. apply Hok. apply (poke_store_ok _ _ _ _ _ Hp2).
           apply grown_store_ok; [assumption|lia].
    + destruct (IH _ _ _ _ _ _ _ Hrun) as (Hc & Hpg & Hok & Heq).
      split; [lia|]. auto.
Qed.

Lemma page_table_update_registry (root v p : Z) (s s' : phys) :
  page_table_update root v p s = Ok s' ->
  nalloc s <= nalloc s' <= nalloc s + 4 /\
  (forall g, is_Some (pages s !! g) -> is_Some (pages s' !! g)) /\
  (store_ok s -> store_ok s') /\
  (p = NO_MAPPING -> nalloc s' = nalloc s).
Proof.
  unfold page_table_update. change (PAGE_TABLE_LEVELS - 1)%nat with 4%nat.
  destruct (update_loop 4 0 _ _ p s) as [[ex s1]|] eqn:Hloop; [|discriminate].
  simpl. destruct (update_loop_registry _ _ _ _ _ _ _ _ Hloop)
    as (Hc & Hpg & Hok & Heq).
  destruct ex as [[]|tb].
  - intros H. inversion H; subst s1.
    split; [lia|]. split; [assumption|]. split; [assumption|].
    intros Hp. by rewrite (Heq Hp).
  - intros H.
    assert (exists f k w, poke s1 f k w = Some s') as (f & k & w & Hp2).
    { destruct (p =? NO_MAPPING); apply store64_inv in H as (f & k & Hp2);
        eauto. }
    rewrite (poke_nalloc _ _ _ _ _ Hp2).
    split; [lia|]. split; [|split].
    + intros g Hg. apply (poke_pages _ _ _ _ _ g Hp2). auto.
    + intros Hs. apply (poke_store_ok _ _ _ _ _ Hp2). auto.
    + intros Hp. by rewrite (Heq Hp).
Qed.

(** ** Further properties of the interface *)

(** X1: a returning update grows the allocation counter by at most four and
    never lowers it, gives up no registry slot, and allocates nothing when
    it is a removal.  This holds on every store. *)
Theorem update_frame_bound (root v p : Z) (s s' : phys) :
  page_table_update root v p s = Ok s' ->
  nalloc s <= nalloc s' <= nalloc s + 4 /\
  (forall g, is_Some (pages s !! g) -> is_Some (pages s' !! g)) /\
  (p = NO_MAPPING -> nalloc s' = nalloc s).
Proof.
  intros H. destruct (page_table_update_registry _ _ _ _ _ H)
    as (Hc & Hpg & _ & Hrm). auto.
Qed.

(** X2: the registry invariant (exactly the slots below the counter hold a
    frame, and the counter is within the capacity) holds at boot and is kept
    by every returning [alloc_page_frame] and [page_table_update]. *)
Theorem store_ok_kept :
  store_ok boot /\
  (forall s ppn s', store_ok s -> alloc_page_frame s = Ok (ppn, s') ->
     store_ok s') /\
  (forall s root v p s', store_ok s -> page_table_update root v p s = Ok s' ->
     store_ok s').
Proof.
  split; [exact boot_store_ok|]. split.
  - intros s ppn s' Hok Ha. apply alloc_page_frame_inv in Ha as (Hn & _ & ->).
    apply grown_store_ok; [assumption|lia].
  - intros s root v p s' Hok Hu.
    by apply (page_table_update_registry _ _ _ _ _ Hu).
Qed.

(** X3: the PPN that [alloc_page_frame] returns resolves, at every byte
    offset of the page, to that offset in the frame just allocated, and every
    word of that frame reads zero. *)
Theorem alloc_resolves (s s' : phys) (ppn off : Z) :
  alloc_page_frame s = Ok (ppn, s') -> 0 <= off < 8192 ->
  phys_to_virt s' (shl64 ppn 13 + off) = InFrame (nalloc s) off /\
  forall i, 0 <= i < 1024 ->
    load64 s' (phys_to_virt s' (shl64 ppn 13)) i = Ok 0.
Proof.
  intros Ha Hoff. apply alloc_page_frame_inv in Ha as (Hn & -> & ->).
  assert (slot (grown s) (nalloc s) = InFrame (nalloc s) 0) as Hslot
    by (unfold slot; simpl; by rewrite lookup_insert_eq).
  split.
  - unfold phys_to_virt.
    rewrite shl64_13, frame_number_small by assumption.
    replace (Z.shiftr ((nalloc s + BIAS) * 2 ^ 13 + off) 13)
      with (nalloc s + BIAS).
    2:{ rewrite Z.shiftr_div_pow2 by lia. rewrite pow2_13.
        apply (Z.div_unique _ _ _ off); lia. }
    replace (sub64 (nalloc s + BIAS) BIAS) with (nalloc s).
    2:{ unfold sub64, wrap64. replace (nalloc s + BIAS - BIAS) with (nalloc s) by lia.
        symmetry. apply Z.mod_small. unfold NPAGES in Hn. rewrite pow2_64. lia. }
    destruct (Z.ltb_spec (nalloc s) NPAGES); [|lia].
    rewrite Hslot. unfold ptr_add. f_equal. rewrite Z.add_0_l.
    change 0x1fff with (Z.ones 13). rewrite Z.land_ones by lia.
    rewrite pow2_13. symmetry.
    apply (Z.mod_unique _ _ (nalloc s + BIAS)); lia.
  - intros i Hi. rewrite phys_to_virt_ppn, Hslot by assumption.
    by rewrite load64_frame, peek_grown_new.
Qed.

Lemma shift_field (q r : Z) :
  0 <= r < 1024 ->
  Z.shiftr (q * 1024 + r) 10 = q /\ Z.land (q * 1024 + r) 0x3ff = r.
Proof.
  intros Hr. split.
  - rewrite Z.shiftr_div_pow2 by lia. change (2 ^ 10) with 1024.
    symmetry. apply (Z.div_unique _ _ _ r); lia.
  - change 0x3ff with (Z.ones 10). rewrite Z.land_ones by lia.
    change (2 ^ 10) with 1024. symmetry.
    apply (Z.mod_unique _ _ q); lia.
Qed.

(** X4: two VPNs are split into the same five indices exactly when they
    agree on their low 50 bits. *)
Theorem split_vpn_eq_iff (v1 v2 : Z) :
  split_vpn v1 = split_vpn v2 <-> v1 mod 2 ^ 50 = v2 mod 2 ^ 50.
Proof.
  split; intros H.
  - apply (f_equal join_indices) in H. by rewrite !join_split_vpn in H.
  - by rewrite <- (split_vpn_mod v1), <- (split_vpn_mod v2), H.
Qed.

(** X5: every vector of five indices below 1024 is the split of a VPN below
    2^50, namely of the indices put together most significant first. *)
Theorem split_vpn_onto (idx : list Z) :
  good_indices idx ->
  0 <= join_indices idx < 2 ^ 50 /\ split_vpn (join_indices idx) = idx.
Proof.
  intros [Hlen Hidx]. unfold PAGE_TABLE_LEVELS in *.
  destruct idx as [|a [|b [|c [|d [|e [|]]]]]]; try discriminate.
  pose proof (Hidx 0%nat ltac:(lia)) as Ha. pose proof (Hidx 1%nat ltac:(lia)) as Hb.
  pose proof (Hidx 2%nat ltac:(lia)) as Hc. pose proof (Hidx 3%nat ltac:(lia)) as Hd.
  pose proof (Hidx 4%nat ltac:(lia)) as He.
  change ([a; b; c; d; e] !!! 0%nat) with a in Ha.
  change ([a; b; c; d; e] !!! 1%nat) with b in Hb.
  change ([a; b; c; d; e] !!! 2%nat) with c in Hc.
  change ([a; b; c; d; e] !!! 3%nat) with d in Hd.
  change ([a; b; c; d; e] !!! 4%nat) with e in He.
  unfold join_indices. simpl.
  split; [change (2 ^ 50) with 1125899906842624; lia|].
  rewrite split_vpn_unfold.
  destruct (shift_field ((((0 * 1024 + a) * 1024 + b) * 1024 + c) * 1024 + d) e He)
    as [-> ->].
  destruct (shift_field (((0 * 1024 + a) * 1024 + b) * 1024 + c) d Hd) as [-> ->].
  destruct (shift_field ((0 * 1024 + a) * 1024 + b) c Hc) as [-> ->].
  destruct (shift_field (0 * 1024 + a) b Hb) as [-> ->].
  destruct (shift_field 0 a Ha) as [_ ->].
  reflexivity.
Qed.

Lemma shl64_page_aligned (x : Z) : Z.land (shl64 x 13) 0x1fff = 0.
Proof.
  rewrite shl64_13. change 0x1fff with (Z.ones 13).
  rewrite Z.land_ones by lia. apply Z.mod_mul. rewrite pow2_13. lia.
Qed.

(** X6: the walker does not check its root.  On a registry as the allocator
    leaves it, if the index recovered from the root is not below the number
    of frames allocated, the table pointer is NULL and both entry points
    die at their first read through it. *)
Theorem unallocated_root_faults (root v p : Z) (s : phys) :
  store_ok s ->
  nalloc s <= sub64 (Z.shiftr (shl64 root 13) 13) BIAS ->
  phys_to_virt s (shl64 root PAGE_SIZE_BITS) = NULL /\
  page_table_query root v s = Fatal Fault /\
  page_table_update root v p s = Fatal Fault.
Proof.
  intros [Hn Hdom] Hidx.
  assert (phys_to_virt s (shl64 root PAGE_SIZE_BITS) = NULL) as Hnull.
  { unfold phys_to_virt, PAGE_SIZE_BITS. rewrite shl64_page_aligned.
    destruct (Z.ltb_spec (sub64 (Z.shiftr (shl64 root 13) 13) BIAS) NPAGES);
      [|reflexivity].
    unfold slot.
    destruct (pages s !! sub64 (Z.shiftr (shl64 root 13) 13) BIAS) eqn:Hfr;
      [|reflexivity].
    assert (is_Some (pages s !! sub64 (Z.shiftr (shl64 root 13) 13) BIAS)) as Hs
      by eauto.
    apply Hdom in Hs. lia. }
  split; [assumption|].
  unfold page_table_query, page_table_update. rewrite Hnull. split; reflexivity.
Qed.

Lemma query_loop_first_invalid (s : phys) (idx : list Z) (l : nat)
    (table : pointer) :
  first_invalid s idx l table ->
  forall n, (l + n = 4)%nat ->
  query_loop n l idx table s = Ok (Returned NO_MAPPING).
Proof.
  induction 1 as [l table e Hl Hload Hv|l table e Hl Hload Hv _ IH];
    intros n Hn; (destruct n as [|n]; [lia|]); simpl; rewrite Hload; simpl.
  - by rewrite Hv.
  - rewrite valid_eqb by assumption. apply IH. lia.
Qed.

(** X7: when some interior entry on the path of a VPN is invalid, the query
    leaves its loop there and answers NO_MAPPING without reading further.
    This holds on every store. *)
Theorem query_incomplete_path (root v : Z) (s : phys) :
  path_incomplete s root v ->
  query_loop 4 0 (split_vpn v) (phys_to_virt s (shl64 root PAGE_SIZE_BITS)) s
    = Ok (Returned NO_MAPPING) /\
  page_table_query root v s = Ok NO_MAPPING.
Proof.
  intros Hpath.
  pose proof (query_loop_first_invalid _ _ _ _ Hpath 4%nat eq_refl) as Hloop.
  split; [assumption|]. unfold page_table_query.
  change (PAGE_TABLE_LEVELS - 1)%nat with 4%nat. by rewrite Hloop.
Qed.

(** X8: allocating a further frame leaves every existing table well formed
    and changes none of its answers. *)
Theorem alloc_keeps_answers (root ppn : Z) (s s' : phys) :
  wf_table s root -> alloc_page_frame s = Ok (ppn, s') ->
  wf_table s' root /\
  forall v, page_table_query root v s' = page_table_query root v s.
Proof.
  intros Hwf Ha. apply alloc_page_frame_inv in Ha as (Hn & _ & ->).
  assert (wf_table (grown s) root) as Hwf'
    by (apply grown_keeps_wf; [assumption|lia]).
  split; [assumption|]. intros v.
  rewrite !page_table_query_from by assumption.
  destruct Hwf as (pos & Hroot & Hinv).
  apply (query_from_agree pos); [assumption|apply split_vpn_good|lia|assumption|].
  intros k f _ Hf. apply peek_grown_old.
  destruct (inv_frame _ _ Hinv _ _ Hf) as (? & _). lia.
Qed.

Lemma split_vpn_of_low (v1 v2 : Z) :
  v1 mod 2 ^ 50 = v2 mod 2 ^ 50 -> split_vpn v1 = split_vpn v2.
Proof.
  intros H. by rewrite <- (split_vpn_mod v1), <- (split_vpn_mod v2), H.
Qed.

Lemma low_of_split_vpn (v1 v2 : Z) :
  split_vpn v1 = split_vpn v2 -> v1 mod 2 ^ 50 = v2 mod 2 ^ 50.
Proof.
  intros H. apply (f_equal join_indices) in H. by rewrite !join_split_vpn in H.
Qed.

Lemma page_table_query_low (root v1 v2 : Z) (s : phys) :
  v1 mod 2 ^ 50 = v2 mod 2 ^ 50 ->
  page_table_query root v1 s = page_table_query root v2 s.
Proof.
  intros H. unfold page_table_query. by rewrite (split_vpn_of_low v1 v2 H).
Qed.

(** The answers after an update, for every VPN. *)
Lemma update_answers (root v p : Z) (s : phys) :
  wf_table s root ->
  p = NO_MAPPING \/ (nalloc s + 4 <= NPAGES /\ mmap_next s 4) ->
  exists s', page_table_update root v p s = Ok s' /\ wf_table s' root /\
    forall v2, page_table_query root v2 s' =
      if decide (v2 mod 2 ^ 50 = v mod 2 ^ 50) then Ok (stored p)
      else page_table_query root v2 s.
Proof.
  intros Hwf Hpre.
  destruct (page_table_update_spec root v p s Hwf) as (s' & Hu & Hwf' & Hq & _ & Hoth);
    [tauto|].
  exists s'. split; [assumption|]. split; [assumption|]. intros v2.
  destruct (decide (v2 mod 2 ^ 50 = v mod 2 ^ 50)) as [Heq|Hne].
  - by rewrite (page_table_query_low root v2 v s' Heq).
  - apply Hoth. intros H. apply Hne. by apply low_of_split_vpn.
Qed.

(** X9: the table behaves as a map keyed by the low 50 bits of the VPN.
    After an update at [v] (a removal, or an insertion with four free frames
    and [mmap] succeeding), the query at any [v2] answers the value just
    stored if [v2] agrees with [v] on the low 50 bits (aliases above bit 49
    included), and what it answered before otherwise. *)
Theorem update_query_map (root v p : Z) (s : phys) :
  wf_table s root ->
  p = NO_MAPPING \/ (nalloc s + 4 <= NPAGES /\ mmap_next s 4) ->
  exists s', page_table_update root v p s = Ok s' /\
    forall v2, page_table_query root v2 s' =
      if decide (v2 mod 2 ^ 50 = v mod 2 ^ 50)
      then Ok (if p =? NO_MAPPING then NO_MAPPING else p mod 2 ^ 51)
      else page_table_query root v2 s.
Proof.
  intros Hwf Hpre.
  destruct (update_answers root v p s Hwf Hpre) as (s' & Hu & _ & Hq).
  exists s'. split; [assumption|]. exact Hq.
Qed.

(** X10: updates at VPNs that differ in their low 50 bits commute as far as
    queries can tell: in either order all four updates return (eight free
    frames, [mmap] succeeding), and every query answers the same in the two
    final stores. *)
Theorem updates_commute (root v1 p1 v2 p2 : Z) (s : phys) :
  wf_table s root -> v1 mod 2 ^ 50 <> v2 mod 2 ^ 50 ->
  nalloc s + 8 <= NPAGES -> mmap_next s 8 ->
  exists sa sab sb sba,
    page_table_update root v1 p1 s = Ok sa /\
    page_table_update root v2 p2 sa = Ok sab /\
    page_table_update root v2 p2 s = Ok sb /\
    page_table_update root v1 p1 sb = Ok sba /\
    forall v, page_table_query root v sab = page_table_query root v sba.
Proof.
  intros Hwf Hne Hroom Hmm.
  assert (forall s1, nalloc s <= nalloc s1 <= nalloc s + 4 ->
            nalloc s1 + 4 <= NPAGES /\ mmap_next s1 4) as Hnext.
  { intros s1 Hc. split; [lia|]. intros k Hk. apply Hmm. lia. }
  destruct (update_answers root v1 p1 s Hwf) as (sa & Hua & Hwfa & Hqa);
    [right; apply Hnext; lia|].
  destruct (update_answers root v2 p2 s Hwf) as (sb & Hub & Hwfb & Hqb);
    [right; apply Hnext; lia|].
  pose proof (page_table_update_registry _ _ _ _ _ Hua) as (Hca & _).
  pose proof (page_table_update_registry _ _ _ _ _ Hub) as (Hcb & _).
  destruct (update_answers root v2 p2 sa Hwfa) as (sab & Huab & _ & Hqab);
    [right; by apply Hnext|].
  destruct (update_answers root v1 p1 sb Hwfb) as (sba & Huba & _ & Hqba);
    [right; by apply Hnext|].
  exists sa, sab, sb, sba. repeat (split; [assumption|]).
  intros v. rewrite Hqab, Hqba, Hqa, Hqb.
  destruct (decide (v mod 2 ^ 50 = v2 mod 2 ^ 50)) as [E2|N2];
    destruct (decide (v mod 2 ^ 50 = v1 mod 2 ^ 50)) as [E1|N1];
    try reflexivity.
  exfalso. apply Hne. congruence.
Qed.

(** ** The cost of an insertion *)

Lemma missing_levels_zero_frame (n l : nat) (idx : list Z) (t : Z) (s : phys) :
  good_indices idx -> (l + n = 4)%nat ->
  (forall j, 0 <= j < 1024 -> peek s t j = Some 0) ->
  missing_levels n l idx (InFrame t 0) s = Z.of_nat n.
Proof.
  intros Hidx Hl Hz. destruct n as [|n]; [reflexivity|].
  simpl. rewrite load64_frame, Hz by index_range. reflexivity.
Qed.

Lemma missing_levels_range (n : nat) :
  forall l idx table s, 0 <= missing_levels n l idx table s <= Z.of_nat n.
Proof.
  induction n as [|n IH]; intros l idx table s; simpl; [lia|].
  destruct (load64 s table (idx !!! l)) as [e|]; [|lia].
  destruct (Z.land e 1 =? 0); [lia|].
  specialize (IH (S l) idx
    (phys_to_virt s (shl64 (Z.shiftr e PTE_FRAME_SHIFT) PAGE_SIZE_BITS)) s).
  lia.
Qed.

Lemma alloc_page_frame_mmap_failed (s : phys) :
  nalloc s <> NPAGES -> mmap_ok (nalloc s) = false ->
  alloc_page_frame s = Fatal Mmap_failed.
Proof.
  intros Hn Hm. unfold alloc_page_frame. rewrite Hm.
  by destruct (Z.eqb_spec (nalloc s) NPAGES).
Qed.

(** Among the next [n] calls of [mmap] either all succeed or there is a
    first one that fails. *)
Lemma mmap_next_or_first (s : phys) (n : nat) :
  mmap_next s (Z.of_nat n) \/
  exists j, 0 <= j < Z.of_nat n /\ mmap_next s j /\
    mmap_ok (nalloc s + j) = false.
Proof.
  induction n as [|n [IH|(j & Hj & Hb & Hf)]].
  - left. intros k Hk. lia.
  - destruct (mmap_ok (nalloc s + Z.of_nat n)) eqn:Hm.
    + left. intros k Hk.
      destruct (decide (k = nalloc s + Z.of_nat n)) as [->|]; [assumption|].
      apply IH. lia.
    + right. exists (Z.of_nat n). split; [lia|]. by split.
  - right. exists j. split; [lia|]. by split.
Qed.

(** An insertion resumed at any level calls [alloc_page_frame] once for each
    missing level.  It returns when the registry has room for them and
    every [mmap] succeeds, and then it has allocated that many frames; it
    dies of exhaustion when the registry fills up first, and of a failed
    [mmap] at the first call that fails. *)
Lemma insert_from_cost (idx : list Z) (p : Z) :
  good_indices idx -> p <> NO_MAPPING ->
  forall n l t s pos, (l + n = 4)%nat ->
  table_inv s pos -> pos !! t = Some (take l idx) ->
  (nalloc s + missing_levels n l idx (InFrame t 0) s <= NPAGES ->
   mmap_next s (missing_levels n l idx (InFrame t 0) s) ->
     exists s', update_from n l idx t p s = Ok s' /\
       nalloc s' = nalloc s + missing_levels n l idx (InFrame t 0) s) /\
  (NPAGES < nalloc s + missing_levels n l idx (InFrame t 0) s ->
   mmap_next s (NPAGES - nalloc s) ->
     update_from n l idx t p s = Fatal Exhausted) /\
  (forall j, 0 <= j < missing_levels n l idx (InFrame t 0) s ->
   nalloc s + j < NPAGES -> mmap_next s j ->
   mmap_ok (nalloc s + j) = false ->
     update_from n l idx t p s = Fatal Mmap_failed).
Proof.
  intros Hidx Hp. induction n as [|n IH]; intros l t s pos Hl Hinv Ht.
  - assert (l = 4%nat) as -> by lia. simpl.
    pose proof (inv_nalloc _ _ Hinv) as Hn.
    split; [intros _ _|split; [lia|intros j Hj; lia]].
    destruct (update_leaf pos idx p t s Hidx Hinv Ht) as (s' & Hu & _).
    exists s'. split; [assumption|].
    rewrite update_from_leaf in Hu.
    destruct (poke s t _ _) as [s1|] eqn:Hp1; [|discriminate].
    inversion Hu; subst s1. rewrite (poke_nalloc _ _ _ _ _ Hp1). lia.
  - assert (0 <= idx !!! l < 1024) as Hi by index_range.
    destruct (inv_present s pos t _ _ Hinv Ht Hi) as [e He].
    pose proof (inv_nalloc _ _ Hinv) as Hn.
    assert (0 <= t < nalloc s) as Htr
      by (by destruct (inv_frame _ _ Hinv _ _ Ht) as (? & _)).
    assert (length (take l idx) < 4)%nat as Hlen
      by (rewrite good_take_length by (auto; lia); lia).
    simpl missing_levels. rewrite load64_frame, He.
    rewrite update_from_step, He.
    destruct (Z.eqb_spec (Z.land e 1) 0) as [Hv|Hv].
    + destruct (Z.eqb_spec p NO_MAPPING) as [?|_]; [contradiction|].
      destruct (decide (nalloc s = NPAGES)) as [Hfull|Hfree].
      { split; [lia|]. split; [|intros j Hj; lia].
        intros _ _. unfold alloc_page_frame.
        by rewrite Hfull, Z.eqb_refl. }
      destruct (mmap_ok (nalloc s)) eqn:Hm.
      * rewrite alloc_page_frame_ok by (auto; lia).
        destruct (poke_total (grown s) t (idx !!! l)
                    (Z.lor (shl64 (nalloc s + BIAS) 13) 1)) as [s2 Hp2].
        { rewrite peek_grown_old by lia. eauto. }
        rewrite Hp2.
        assert (table_inv s2 (<[nalloc s := take (S l) idx]> pos)) as Hinv2.
        { rewrite good_take_S by (auto; lia).
          exact (inv_link s s2 pos t _ _ Hinv Ht Hlen ltac:(lia) Hp2). }
        rewrite (inv_table_pointer s2 _ (nalloc s) _ Hinv2 (lookup_insert_eq _ _ _)).
        destruct (IH (S l) (nalloc s) s2 _ ltac:(lia) Hinv2
                    (lookup_insert_eq _ _ _)) as (IH1 & IH2 & IH3).
        assert (missing_levels n (S l) idx (InFrame (nalloc s) 0) s2 = Z.of_nat n)
          as Hmiss.
        { apply missing_levels_zero_frame; [assumption|lia|].
          intros j Hj.
          rewrite (peek_poke_ne _ _ _ _ _ _ _ Hp2) by (intros [? ?]; lia).
          by apply peek_grown_new. }
        rewrite Hmiss in IH1, IH3.
        assert (nalloc s2 = nalloc s + 1) as Hc
          by (by rewrite (poke_nalloc _ _ _ _ _ Hp2)).
        unfold mmap_next in *. rewrite Hc in IH1, IH2, IH3.
        split; [|split].
        -- intros Hroom Hnext. destruct IH1 as (s' & Hu & Hc'); [lia| |].
           { intros k Hk. apply Hnext. lia. }
           exists s'. split; [exact Hu|lia].
        -- intros Hroom Hnext. apply IH2; [lia|].
           intros k Hk. apply Hnext. lia.
        -- intros j Hj Hjr Hnext Hfail.
           destruct (decide (j = 0)) as [->|Hj0].
           { rewrite Z.add_0_r in Hfail. congruence. }
           apply (IH3 (j - 1)); [lia|lia| |].
           ++ intros k Hk. apply Hnext. lia.
           ++ rewrite <- Hfail. f_equal. lia.
      * rewrite alloc_page_frame_mmap_failed by assumption.
        split; [|split].
        -- intros _ Hnext. rewrite Hnext in Hm by lia. discriminate.
        -- intros _ Hnext. rewrite Hnext in Hm by lia. discriminate.
        -- intros j Hj Hjr Hnext Hfail.
           destruct (decide (j = 0)) as [->|Hj0]; [reflexivity|].
           rewrite Hnext in Hm by lia. discriminate.
    + destruct (inv_child _ _ Hinv _ _ _ _ Ht Hlen He Hv) as (t' & Hsh & Ht').
      rewrite <- good_take_S in Ht' by (auto; lia).
      assert (phys_to_virt s (shl64 (Z.shiftr e 13) 13) = InFrame t' 0) as Hnext
        by (rewrite Hsh; eapply inv_table_pointer; eassumption).
      unfold PTE_FRAME_SHIFT, PAGE_SIZE_BITS. rewrite Hnext.
      apply (IH (S l) t' s pos ltac:(lia) Hinv Ht').
Qed.

(** X11: what an insertion costs.  On a well-formed table the insertion of
    a PPN other than NO_MAPPING calls [alloc_page_frame] once for each
    interior level from the first invalid entry of the path on, at most four
    times and not at all when the path exists.  It returns, having allocated
    that many frames, when the registry has that many free slots and each
    [mmap] succeeds; it ends with "out of physical memory" when the registry
    fills up before that, every [mmap] up to capacity succeeding; and it
    ends with "mmap failed" at the first of these calls whose [mmap]
    fails. *)
Theorem insert_cost (root v p : Z) (s : phys) :
  wf_table s root -> p <> NO_MAPPING ->
  0 <= frames_needed s root v <= 4 /\
  (nalloc s + frames_needed s root v <= NPAGES ->
   mmap_next s (frames_needed s root v) ->
     exists s', page_table_update root v p s = Ok s' /\
       nalloc s' = nalloc s + frames_needed s root v) /\
  (NPAGES < nalloc s + frames_needed s root v ->
   mmap_next s (NPAGES - nalloc s) ->
     page_table_update root v p s = Fatal Exhausted) /\
  (forall j, 0 <= j < frames_needed s root v ->
   nalloc s + j < NPAGES -> mmap_next s j ->
   mmap_ok (nalloc s + j) = false ->
     page_table_update root v p s = Fatal Mmap_failed).
Proof.
  intros Hwf Hp. split; [apply (missing_levels_range 4)|].
  rewrite page_table_update_from by assumption.
  unfold frames_needed. rewrite (root_pointer s root Hwf).
  destruct Hwf as (pos & Hroot & Hinv).
  apply (insert_from_cost (split_vpn v) p (split_vpn_good v) Hp
           4 0 (root - BIAS) s pos eq_refl Hinv Hroot).
Qed.

(** X12: memory safety of the walker.  On a well-formed table the query
    returns for every VPN, and the update either returns, leaving the table
    well formed, or ends in [alloc_page_frame] with "out of physical memory"
    or with "mmap failed": neither reads or writes through a pointer that no
    frame backs. *)
Theorem walker_never_faults (root v p : Z) (s : phys) :
  wf_table s root ->
  (exists r, page_table_query root v s = Ok r) /\
  ((exists s', page_table_update root v p s = Ok s' /\ wf_table s' root) \/
   page_table_update root v p s = Fatal Exhausted \/
   page_table_update root v p s = Fatal Mmap_failed).
Proof.
  intros Hwf. split.
  - rewrite page_table_query_from by assumption.
    destruct Hwf as (pos & Hroot & Hinv).
    apply (query_from_total pos); [assumption|apply split_vpn_good|lia|assumption].
  - destruct (decide (p = NO_MAPPING)) as [->|Hp].
    + left. destruct (page_table_update_spec root v NO_MAPPING s Hwf)
        as (s' & Hu & Hwf' & _); [by left|]. eauto.
    + pose proof Hwf as (pos & Hroot & Hinv).
      pose proof (inv_nalloc _ _ Hinv) as Hn.
      destruct (insert_from_cost (split_vpn v) p (split_vpn_good v) Hp
                  4 0 (root - BIAS) s pos eq_refl Hinv Hroot)
        as (Hfit & Hfull & Hfail).
      pose proof (missing_levels_range 4 0 (split_vpn v)
                    (InFrame (root - BIAS) 0) s) as Hm.
      rewrite page_table_update_from by assumption.
      set (m := missing_levels 4 0 (split_vpn v) (InFrame (root - BIAS) 0) s)
        in *.
      destruct (mmap_next_or_first s (Z.to_nat (Z.min m (NPAGES - nalloc s))))
        as [Hall|(j & Hj & Hb & Hf)].
      * destruct (Z.le_gt_cases (nalloc s + m) NPAGES) as [H|H].
        -- left. destruct Hfit as (s' & Hu & _); [assumption| |].
           { intros k Hk. apply Hall. lia. }
           exists s'. split; [assumption|].
           apply (update_keeps_wf root v p s s' Hwf).
           by rewrite page_table_update_from.
        -- right. left. apply Hfull; [lia|].
           intros k Hk. apply Hall. lia.
      * right. right. apply (Hfail j); [lia|lia|assumption|assumption].
Qed.

(** ** Complete paths *)

(** When every interior entry is valid the interior loop of the update
    changes nothing and ends at the leaf table. *)
Lemma update_loop_complete (n : nat) :
  forall l idx table p s tb,
  query_loop n l idx table s = Ok (Completed tb) ->
  update_loop n l idx table p s = Ok (Completed tb, s).
Proof.
  induction n as [|n IH]; intros l idx table p s tb Hq; simpl in *.
  - by inversion Hq.
  - destruct (load64 s table (idx !!! l)) as [e|]; [|discriminate].
    simpl in *. destruct (Z.land e 1 =? 0); [discriminate|]. by apply IH.
Qed.

Lemma missing_levels_complete (n : nat) :
  forall l idx table s tb,
  query_loop n l idx table s = Ok (Completed tb) ->
  missing_levels n l idx table s = 0.
Proof.
  induction n as [|n IH]; intros l idx table s tb Hq; simpl in *; [reflexivity|].
  destruct (load64 s table (idx !!! l)) as [e|]; [|discriminate].
  simpl in *. destruct (Z.land e 1 =? 0); [discriminate|]. by eapply IH.
Qed.

(** On a well-formed table a complete path ends at the node four indices
    deep. *)
Lemma query_loop_complete_pos (pos : gmap Z (list Z)) (idx : list Z) (s : phys) :
  table_inv s pos -> good_indices idx ->
  forall n l t tb, (l + n = 4)%nat -> pos !! t = Some (take l idx) ->
  query_loop n l idx (InFrame t 0) s = Ok (Completed tb) ->
  exists t4, tb = InFrame t4 0 /\ pos !! t4 = Some (take 4 idx).
Proof.
  intros Hinv Hidx. induction n as [|n IH]; intros l t tb Hl Ht Hq.
  - assert (l = 4%nat) as -> by lia. simpl in Hq. inversion Hq. eauto.
  - rewrite query_loop_step in Hq.
    destruct (peek s t (idx !!! l)) as [e|] eqn:He; [|discriminate].
    destruct (Z.eqb_spec (Z.land e 1) 0) as [|Hv]; [discriminate|].
    assert (length (take l idx) < 4)%nat as Hlen
      by (rewrite good_take_length by (auto; lia); lia).
    destruct (inv_descend _ _ _ _ _ _ Hinv Ht Hlen He Hv) as (t' & Ht' & Hnext).
    rewrite <- good_take_S in Ht' by (auto; lia).
    rewrite Hnext in Hq. apply (IH (S l) t' tb); [lia|assumption|assumption].
Qed.

(** The interior walk depends only on the interior slots of the path. *)
Lemma query_loop_agree (pos : gmap Z (list Z)) (idx : list Z) (s s' : phys) :
  table_inv s pos -> good_indices idx ->
  (forall f pre, pos !! f = Some pre -> slot s' f = InFrame f 0) ->
  forall n l t, (l + n = 4)%nat -> pos !! t = Some (take l idx) ->
  (forall k f, (l <= k < 4)%nat -> pos !! f = Some (take k idx) ->
     peek s' f (idx !!! k) = peek s f (idx !!! k)) ->
  query_loop n l idx (InFrame t 0) s' = query_loop n l idx (InFrame t 0) s.
Proof.
  intros Hinv Hidx Hslot. induction n as [|n IH]; intros l t Hl Ht Hsame.
  - reflexivity.
  - rewrite !query_loop_step. rewrite (Hsame l t) by (auto; lia).
    destruct (peek s t (idx !!! l)) as [e|] eqn:He; [|reflexivity].
    destruct (Z.eqb_spec (Z.land e 1) 0) as [|Hv]; [reflexivity|].
    assert (length (take l idx) < 4)%nat as Hlen
      by (rewrite good_take_length by (auto; lia); lia).
    destruct (inv_child _ _ Hinv _ _ _ _ Ht Hlen He Hv) as (t' & Hsh & Ht').
    rewrite <- good_take_S in Ht' by (auto; lia).
    rewrite Hsh, (inv_table_pointer s pos t' _ Hinv Ht').
    destruct (inv_frame _ _ Hinv _ _ Ht') as (Hr & _).
    pose proof (inv_nalloc _ _ Hinv).
    rewrite phys_to_virt_ppn, (Hslot t' _ Ht') by lia.
    apply (IH (S l) t'); [lia|assumption|].
    intros k f Hk. apply Hsame. lia.
Qed.

(** X13: a removal on a well-formed table always returns, a full registry
    included, and allocates nothing.  It never gives back an interior table:
    a path that was complete stays complete, so that any later update at that
    VPN returns without allocating. *)
Theorem remove_keeps_path (root v : Z) (s : phys) :
  wf_table s root ->
  exists s', page_table_update root v NO_MAPPING s = Ok s' /\
    wf_table s' root /\ nalloc s' = nalloc s /\
    (path_complete s root v ->
       path_complete s' root v /\
       forall p, exists s2, page_table_update root v p s' = Ok s2 /\
         nalloc s2 = nalloc s).
Proof.
  intros Hwf.
  destruct (page_table_update_spec root v NO_MAPPING s Hwf)
    as (s' & Hu & Hwf' & _); [by left|].
  pose proof (page_table_update_registry _ _ _ _ _ Hu) as (_ & _ & _ & Hc).
  specialize (Hc eq_refl).
  exists s'. split; [assumption|]. split; [assumption|]. split; [assumption|].
  intros Hpath.
  assert (path_complete s' root v) as Hpath'.
  { destruct Hpath as [tb Htb]. exists tb.
    pose proof Hwf as (pos & Hroot & Hinv).
    rewrite (root_pointer s root Hwf) in Htb.
    rewrite (root_pointer s' root Hwf').
    change (PAGE_TABLE_LEVELS - 1)%nat with 4%nat in *.
    destruct (query_loop_complete_pos pos (split_vpn v) s Hinv (split_vpn_good v)
                4 0 (root - BIAS) tb eq_refl Hroot Htb) as (t4 & -> & Ht4).
    rewrite page_table_update_from in Hu by assumption.
    unfold update_from in Hu.
    rewrite (update_loop_complete _ _ _ _ _ _ _ Htb) in Hu.
    simpl in Hu. unfold finish_update in Hu. simpl in Hu.
    rewrite Z.eqb_refl, store64_frame in Hu.
    destruct (poke s t4 _ 0) as [s1|] eqn:Hp1; [|discriminate].
    inversion Hu; subst s1.
    assert (length (take 4 (split_vpn v)) = 4%nat) as Hlen4
      by (apply good_take_length; [apply split_vpn_good|lia]).
    pose proof (inv_poke_leaf s s' pos t4 _ _ _ Hinv Ht4 Hlen4 Hp1) as Hinv'.
    rewrite <- Htb.
    apply (query_loop_agree pos); [assumption|apply split_vpn_good| |lia|assumption|].
    - intros f pre Hf. apply (peek_Some_slot s' f 0).
      apply (inv_frame _ _ Hinv' _ _ Hf). lia.
    - intros k f Hk Hf. apply (peek_poke_ne _ _ _ _ _ _ _ Hp1).
      intros [-> _]. rewrite Ht4 in Hf. inversion Hf as [Heq].
      apply (good_take_inj (split_vpn v) (split_vpn v) 4 k) in Heq;
        [lia|apply split_vpn_good|apply split_vpn_good|lia|lia]. }
  split; [assumption|]. intros p.
  destruct (page_table_update_spec root v p s' Hwf') as (s2 & Hu2 & _);
    [by right; right|].
  exists s2. split; [assumption|]. rewrite <- Hc.
  destruct (decide (p = NO_MAPPING)) as [->|Hp].
  - by apply (page_table_update_registry _ _ _ _ _ Hu2).
  - pose proof Hwf' as (pos' & Hroot' & Hinv').
    destruct (insert_from_cost (split_vpn v) p (split_vpn_good v) Hp
                4 0 (root - BIAS) s' pos' eq_refl Hinv' Hroot') as [Hfit _].
    destruct Hpath' as [tb Htb]. rewrite (root_pointer s' root Hwf') in Htb.
    change (PAGE_TABLE_LEVELS - 1)%nat with 4%nat in Htb.
    rewrite (missing_levels_complete _ _ _ _ _ _ Htb) in Hfit.
    destruct Hfit as (s3 & Hu3 & Hc3);
      [pose proof (inv_nalloc _ _ Hinv'); lia|intros k Hk; lia|].
    rewrite page_table_update_from in Hu2 by assumption.
    rewrite Hu3 in Hu2. inversion Hu2; subst s3. lia.
Qed.

(** An update repeated on the store it produced changes nothing. *)
Lemma update_from_fixed (idx : list Z) (p : Z) :
  good_indices idx ->
  forall n l t s pos s', (l + n = 4)%nat ->
  table_inv s pos -> pos !! t = Some (take l idx) ->
  update_from n l idx t p s = Ok s' ->
  update_from n l idx t p s' = Ok s'.
Proof.
  intros Hidx. induction n as [|n IH]; intros l t s pos s' Hl Hinv Ht Hrun.
  - rewrite update_from_leaf in *.
    destruct (poke s t _ _) as [s1|] eqn:Hp1; [|discriminate].
    inversion Hrun; subst s1.
    by rewrite (poke_same s' _ _ _ (peek_poke_eq _ _ _ _ _ Hp1)).
  - assert (0 <= idx !!! l < 1024) as Hi by index_range.
    destruct (inv_present s pos t _ _ Hinv Ht Hi) as [e He].
    assert (0 <= t < nalloc s) as Htr
      by (by destruct (inv_frame _ _ Hinv _ _ Ht) as (? & _)).
    assert (length (take l idx) < 4)%nat as Hlen
      by (rewrite good_take_length by (auto; lia); lia).
    rewrite update_from_step, He in Hrun.
    destruct (Z.eqb_spec (Z.land e 1) 0) as [Hv|Hv].
    + destruct (Z.eqb_spec p NO_MAPPING) as [->|Hp].
      * inversion Hrun; subst s'.
        by rewrite update_from_step, He, Hv, !Z.eqb_refl.
      * destruct (alloc_page_frame s) as [[new_pt s1]|] eqn:Ha; [|discriminate].
        apply alloc_page_frame_inv in Ha as (Hroom & -> & ->).
        destruct (poke (grown s) t (idx !!! l) _) as [s2|] eqn:Hp2;
          [|discriminate].
        assert (table_inv s2 (<[nalloc s := take (S l) idx]> pos)) as Hinv2.
        { rewrite good_take_S by (auto; lia).
          exact (inv_link s s2 pos t _ _ Hinv Ht Hlen ltac:(lia) Hp2). }
        rewrite (inv_table_pointer s2 _ (nalloc s) _ Hinv2
                   (lookup_insert_eq _ _ _)) in Hrun.
        destruct (update_from_ok idx p Hidx n (S l) (nalloc s) s2 _ s'
                    ltac:(lia) Hinv2 (lookup_insert_eq _ _ _) Hrun)
          as (pos' & Hinv' & Hsub & Hframe & _).
        assert (peek s' t (idx !!! l) =
                Some (Z.lor (shl64 (nalloc s + BIAS) 13) 1)) as He'.
        { rewrite Hframe.
          - apply (peek_poke_eq _ _ _ _ _ Hp2).
          - rewrite (poke_nalloc _ _ _ _ _ Hp2). simpl. lia.
          - apply not_on_path_above; [assumption|lia|].
            rewrite lookup_insert_ne by lia. assumption. }
        rewrite update_from_step, He', pte_valid.
        rewrite pte_frame, frame_number_small by lia.
        rewrite (inv_table_pointer s' pos' (nalloc s) (take (S l) idx) Hinv').
        2:{ eapply lookup_weaken; [apply lookup_insert_eq|eassumption]. }
        apply (IH (S l) (nalloc s) s2 _ s' ltac:(lia) Hinv2
                 (lookup_insert_eq _ _ _) Hrun).
    + destruct (inv_child _ _ Hinv _ _ _ _ Ht Hlen He Hv) as (t' & Hsh & Ht').
      rewrite <- good_take_S in Ht' by (auto; lia).
      rewrite Hsh, (inv_table_pointer s pos t' _ Hinv Ht') in Hrun.
      destruct (update_from_ok idx p Hidx n (S l) t' s pos s'
                  ltac:(lia) Hinv Ht' Hrun) as (pos' & Hinv' & Hsub & Hframe & _).
      assert (peek s' t (idx !!! l) = Some e) as He'.
      { rewrite Hframe; [assumption|assumption|].
        apply not_on_path_above; [assumption|lia|assumption]. }
      rewrite update_from_step, He', valid_eqb, Hsh by assumption.
      rewrite (inv_table_pointer s' pos' t' (take (S l) idx) Hinv').
      2:{ eapply lookup_weaken; eassumption. }
      apply (IH (S l) t' s pos s' ltac:(lia) Hinv Ht' Hrun).
Qed.

(** X14: updates are idempotent on the whole store.  If an update returns,
    the same update run again on the resulting store returns that store
    unchanged: no frame is allocated and no word changes. *)
Theorem update_idempotent (root v p : Z) (s s1 : phys) :
  wf_table s root -> page_table_update root v p s = Ok s1 ->
  page_table_update root v p s1 = Ok s1.
Proof.
  intros Hwf Hu. pose proof (update_keeps_wf _ _ _ _ _ Hwf Hu) as Hwf1.
  rewrite page_table_update_from in * by assumption.
  destruct Hwf as (pos & Hroot & Hinv).
  exact (update_from_fixed (split_vpn v) p (split_vpn_good v)
           4 0 (root - BIAS) s pos s1 eq_refl Hinv Hroot Hu).
Qed.

(** ** Tables side by side *)

Lemma grown_keeps_inv (s : phys) (pos : gmap Z (list Z)) :
  table_inv s pos -> nalloc s < NPAGES -> table_inv (grown s) pos.
Proof.
  intros Hinv Hroom. pose proof (inv_nalloc _ _ Hinv) as Hn. split.
  - simpl. lia.
  - intros f pre Hf. destruct (inv_frame _ _ Hinv _ _ Hf) as (Hr & Hlen & Hpres).
    simpl. split; [lia|]. split; [assumption|]. intros i Hi.
    rewrite peek_grown_old by lia. auto.
  - intros f pre i e Hf Hlen He Hv.
    destruct (inv_frame _ _ Hinv _ _ Hf) as (Hr & _).
    rewrite peek_grown_old in He by lia.
    eapply inv_child; eassumption.
Qed.

Lemma fresh_root_inv (s : phys) :
  0 <= nalloc s < NPAGES -> table_inv (grown s) {[ nalloc s := [] ]}.
Proof.
  intros Hn. split.
  - simpl. lia.
  - intros f pre Hf. apply lookup_singleton_Some in Hf as [<- <-].
    simpl. split; [lia|]. split; [lia|].
    intros i Hi. rewrite peek_grown_new by assumption. eauto.
  - intros f pre i e Hf _ He Hv. apply lookup_singleton_Some in Hf as [<- <-].
    exfalso. apply Hv. unfold peek in He.
    destruct (Z.leb_spec 0 i); [|discriminate].
    unfold grown in He. simpl in He. rewrite lookup_insert_eq in He.
    simpl in He. by apply lookup_replicate_1 in He as [-> _].
Qed.

Lemma apart_sym (s : phys) (root1 root2 : Z) :
  apart s root1 root2 -> apart s root2 root1.
Proof.
  intros (pos1 & pos2 & H1 & I1 & H2 & I2 & Hd).
  exists pos2, pos1. repeat (split; [assumption|]).
  intros f. destruct (Hd f); auto.
Qed.

(** A root fresh from the allocator shares no node with an older table. *)
Lemma fresh_root_apart (s s' : phys) (root1 root2 : Z) :
  wf_table s root1 -> alloc_page_frame s = Ok (root2, s') ->
  apart s' root1 root2.
Proof.
  intros (pos & Hroot & Hinv) Ha.
  apply alloc_page_frame_inv in Ha as (Hn & -> & ->).
  exists pos, {[ nalloc s := [] ]}.
  split; [assumption|]. split; [apply grown_keeps_inv; [assumption|lia]|].
  replace (nalloc s + BIAS - BIAS) with (nalloc s) by lia.
  split; [apply lookup_singleton_eq|]. split; [by apply fresh_root_inv|].
  intros f. destruct (decide (f = nalloc s)) as [->|Hne].
  - left. destruct (pos !! nalloc s) as [pre|] eqn:Hpre; [|reflexivity].
    destruct (inv_frame _ _ Hinv _ _ Hpre) as (? & _). lia.
  - right. by apply lookup_singleton_ne.
Qed.

(** The nodes a returning update adds to a table are frames allocated
    during that update. *)
Lemma update_from_fresh (idx : list Z) (p : Z) :
  good_indices idx ->
  forall n l t s pos s', (l + n = 4)%nat ->
  table_inv s pos -> pos !! t = Some (take l idx) ->
  update_from n l idx t p s = Ok s' ->
  exists pos', table_inv s' pos' /\ pos ⊆ pos' /\
    forall f, is_Some (pos' !! f) -> is_Some (pos !! f) \/ nalloc s <= f.
Proof.
  intros Hidx. induction n as [|n IH]; intros l t s pos s' Hl Hinv Ht Hrun.
  - assert (l = 4%nat) as -> by lia.
    rewrite update_from_leaf in Hrun.
    destruct (poke s t _ _) as [s1|] eqn:Hp1; [|discriminate].
    inversion Hrun; subst s1. exists pos.
    split; [|split; [reflexivity|auto]].
    eapply inv_poke_leaf; [eassumption|eassumption| |eassumption].
    apply good_take_length; [assumption|lia].
  - assert (0 <= idx !!! l < 1024) as Hi by index_range.
    destruct (inv_present s pos t _ _ Hinv Ht Hi) as [e He].
    assert (0 <= t < nalloc s) as Htr
      by (by destruct (inv_frame _ _ Hinv _ _ Ht) as (? & _)).
    assert (length (take l idx) < 4)%nat as Hlen
      by (rewrite good_take_length by (auto; lia); lia).
    rewrite update_from_step, He in Hrun.
    destruct (Z.eqb_spec (Z.land e 1) 0) as [Hv|Hv].
    + destruct (Z.eqb_spec p NO_MAPPING) as [->|Hp].
      * inversion Hrun; subst s'. exists pos.
        split; [assumption|]. split; [reflexivity|auto].
      * destruct (alloc_page_frame s) as [[new_pt s1]|] eqn:Ha; [|discriminate].
        apply alloc_page_frame_inv in Ha as (Hroom & -> & ->).
        destruct (poke (grown s) t (idx !!! l) _) as [s2|] eqn:Hp2;
          [|discriminate].
        assert (table_inv s2 (<[nalloc s := take (S l) idx]> pos)) as Hinv2.
        { rewrite good_take_S by (auto; lia).
          exact (inv_link s s2 pos t _ _ Hinv Ht Hlen ltac:(lia) Hp2). }
        rewrite (inv_table_pointer s2 _ (nalloc s) _ Hinv2
                   (lookup_insert_eq _ _ _)) in Hrun.
        destruct (IH (S l) (nalloc s) s2 _ s' ltac:(lia) Hinv2
                    (lookup_insert_eq _ _ _) Hrun) as (pos' & Hinv' & Hsub & Hnew).
        assert (pos !! nalloc s = None) as Hfresh.
        { destruct (pos !! nalloc s) as [pre|] eqn:Hpre; [|reflexivity].
          destruct (inv_frame _ _ Hinv _ _ Hpre) as (? & _). lia. }
        exists pos'. split; [assumption|]. split.
        { etrans; [|eassumption]. by apply insert_subseteq. }
        intros f Hf. destruct (Hnew f Hf) as [Hold|Hge].
        -- destruct (decide (f = nalloc s)) as [->|Hne]; [right; lia|].
           left. by rewrite lookup_insert_ne in Hold.
        -- right. rewrite (poke_nalloc _ _ _ _ _ Hp2) in Hge. simpl in Hge. lia.
    + destruct (inv_child _ _ Hinv _ _ _ _ Ht Hlen He Hv) as (t' & Hsh & Ht').
      rewrite <- good_take_S in Ht' by (auto; lia).
      rewrite Hsh, (inv_table_pointer s pos t' _ Hinv Ht') in Hrun.
      apply (IH (S l) t' s pos s' ltac:(lia) Hinv Ht' Hrun).
Qed.

(** X15: two page tables that share no node do not interfere.  A returning
    update of one leaves every answer of the other as it was, and the two
    still share no node afterwards.  A root fresh from the allocator shares
    no node with an existing table (lemma [fresh_root_apart]). *)
Theorem tables_isolated (root1 root2 v p : Z) (s s' : phys) :
  apart s root1 root2 -> page_table_update root1 v p s = Ok s' ->
  apart s' root1 root2 /\
  forall v2, page_table_query root2 v2 s' = page_table_query root2 v2 s.
Proof.
  intros (pos1 & pos2 & Hr1 & Hinv1 & Hr2 & Hinv2 & Hdis) Hu.
  assert (wf_table s root1) as Hwf1 by (exists pos1; auto).
  assert (wf_table s root2) as Hwf2 by (exists pos2; auto).
  pose proof (page_table_update_registry _ _ _ _ _ Hu) as (Hc & _).
  rewrite page_table_update_from in Hu by assumption.
  destruct (update_from_ok (split_vpn v) p (split_vpn_good v) 4 0 _ s pos1 s'
              eq_refl Hinv1 Hr1 Hu) as (pos1' & _ & _ & Hframe & _).
  destruct (update_from_fresh (split_vpn v) p (split_vpn_good v) 4 0 _ s pos1 s'
              eq_refl Hinv1 Hr1 Hu) as (pos1'' & Hinv1'' & Hsub & Hnew).
  assert (forall f pre i, pos2 !! f = Some pre -> peek s' f i = peek s f i)
    as Hsame.
  { intros f pre i Hf. apply Hframe.
    - by destruct (inv_frame _ _ Hinv2 _ _ Hf) as (? & _).
    - intros (k & _ & Hf1 & _). destruct (Hdis f); congruence. }
  assert (table_inv s' pos2) as Hinv2'.
  { split.
    - apply (inv_nalloc _ _ Hinv1'').
    - intros f pre Hf. destruct (inv_frame _ _ Hinv2 _ _ Hf) as (Hr & Hlen & Hpres).
      split; [lia|]. split; [assumption|]. intros i Hi.
      rewrite (Hsame f pre i Hf). auto.
    - intros f pre i e Hf Hlen He Hv. rewrite (Hsame f pre i Hf) in He.
      eapply inv_child; eassumption. }
  split.
  - exists pos1'', pos2. split; [eapply lookup_weaken; eassumption|].
    repeat (split; [assumption|]).
    intros f. destruct (pos2 !! f) as [pre2|] eqn:Hf2; [|by right].
    left. destruct (pos1'' !! f) as [pre1|] eqn:Hf1; [|reflexivity].
    exfalso. destruct (Hnew f) as [[pre Hold]|Hge]; [by rewrite Hf1| |].
    + destruct (Hdis f); congruence.
    + destruct (inv_frame _ _ Hinv2 _ _ Hf2) as (? & _). lia.
  - intros v2.
    assert (wf_table s' root2) as Hwf2' by (exists pos2; auto).
    rewrite !page_table_query_from by assumption.
    apply (query_from_agree pos2);
      [assumption|apply split_vpn_good|lia|assumption|].
    intros k f _ Hf. by apply (Hsame f _ _ Hf).
Qed.

(** ** The loops of [main] *)

Lemma add64_small (x y : Z) : 0 <= x + y < 2 ^ 64 -> add64 x y = x + y.
Proof. intros H. unfold add64, wrap64. by apply Z.mod_small. Qed.

Lemma map_loop_step (n : nat) (i pt vpn_base ppn_base : Z) (s : phys) :
  map_loop (S n) i pt vpn_base ppn_base s =
  match page_table_update pt (add64 vpn_base i) (add64 ppn_base i) s with
  | Ok s' => map_loop n (add64 i 1) pt vpn_base ppn_base s'
  | Fatal e => Fatal e
  end.
Proof. reflexivity. Qed.

Lemma assert_loop_step (n : nat) (i pt vpn_base ppn_base : Z) (s : phys) :
  assert_loop (S n) i pt vpn_base ppn_base s =
  match page_table_query pt (add64 vpn_base i) s with
  | Ok r =>
      if r =? add64 ppn_base i
      then assert_loop n (add64 i 1) pt vpn_base ppn_base s
      else Assert_failed
  | Fatal e => Stopped e
  end.
Proof. reflexivity. Qed.

(** After the mapping loop every VPN of the range answers its PPN, and every
    VPN outside the range answers as before. *)
Lemma map_loop_spec (pt vpn_base ppn_base : Z) (n : nat) :
  forall i s, wf_table s pt -> nalloc s + 4 * Z.of_nat n <= NPAGES ->
  mmap_next s (4 * Z.of_nat n) ->
  0 <= i -> 0 <= vpn_base -> vpn_base + i + Z.of_nat n <= 2 ^ 50 ->
  0 <= ppn_base -> ppn_base + i + Z.of_nat n <= 2 ^ 51 ->
  NO_MAPPING < ppn_base + i \/ ppn_base + i + Z.of_nat n <= NO_MAPPING ->
  exists s', map_loop n i pt vpn_base ppn_base s = Ok s' /\
    wf_table s' pt /\
    (forall j, i <= j < i + Z.of_nat n ->
       page_table_query pt (vpn_base + j) s' = Ok (ppn_base + j)) /\
    (forall v, (forall j, i <= j < i + Z.of_nat n ->
                  v mod 2 ^ 50 <> (vpn_base + j) mod 2 ^ 50) ->
       page_table_query pt v s' = page_table_query pt v s).
Proof.
  induction n as [|n IH]; intros i s Hwf Hroom Hmm Hi Hvb Hvr Hpb Hpr Hsent.
  - exists s. split; [reflexivity|]. split; [assumption|].
    split; [intros j Hj; lia|reflexivity].
  - assert (2 ^ 50 = 1125899906842624) as E50 by reflexivity.
    pose proof pow2_51 as E51. pose proof pow2_64 as E64.
    rewrite map_loop_step.
    rewrite (add64_small vpn_base i), (add64_small ppn_base i),
      (add64_small i 1) by lia.
    destruct (update_answers pt (vpn_base + i) (ppn_base + i) s Hwf)
      as (s1 & Hu & Hwf1 & Hq1).
    { right. split; [lia|]. intros k Hk. apply Hmm. lia. }
    rewrite Hu.
    pose proof (page_table_update_registry _ _ _ _ _ Hu) as (Hc & _).
    destruct (IH (i + 1) s1 Hwf1) as (s' & Hrun & Hwf' & Hin & Hout); try lia.
    { intros k Hk. apply Hmm. lia. }
    exists s'. split; [assumption|]. split; [assumption|].
    assert (forall a b, 0 <= a < 2 ^ 50 -> 0 <= b < 2 ^ 50 -> a <> b ->
              a mod 2 ^ 50 <> b mod 2 ^ 50) as Hmod.
    { intros a b Ha Hb Hab. by rewrite !Z.mod_small. }
    split.
    + intros j Hj. destruct (decide (j = i)) as [->|Hne].
      * rewrite Hout.
        -- rewrite Hq1. destruct (decide _) as [_|Hd]; [|by destruct Hd].
           rewrite stored_insert by lia. f_equal. apply Z.mod_small. lia.
        -- intros j' Hj'. apply Hmod; lia.
      * apply Hin. lia.
    + intros v Hv. rewrite Hout.
      * rewrite Hq1. destruct (decide _) as [Hd|_]; [|reflexivity].
        exfalso. apply (Hv i); [lia|assumption].
      * intros j Hj. apply Hv. lia.
Qed.

Lemma assert_loop_passes (pt vpn_base ppn_base : Z) (s : phys) (n : nat) :
  forall i, 0 <= i -> 0 <= vpn_base -> 0 <= ppn_base ->
  vpn_base + i + Z.of_nat n <= 2 ^ 50 -> ppn_base + i + Z.of_nat n <= 2 ^ 51 ->
  (forall j, i <= j < i + Z.of_nat n ->
     page_table_query pt (vpn_base + j) s = Ok (ppn_base + j)) ->
  assert_loop n i pt vpn_base ppn_base s = Passed.
Proof.
  induction n as [|n IH]; intros i Hi Hvb Hpb Hvr Hpr Hq; [reflexivity|].
  assert (2 ^ 50 = 1125899906842624) as E50 by reflexivity.
  pose proof pow2_51 as E51. pose proof pow2_64 as E64.
  rewrite assert_loop_step.
  rewrite (add64_small vpn_base i), (add64_small ppn_base i),
    (add64_small i 1) by lia.
  rewrite Hq by lia. rewrite Z.eqb_refl.
  apply IH; try lia. intros j Hj. apply Hq. lia.
Qed.

(** X16: the two loops of [main].  On a well-formed table with four free
    frames for each round and [mmap] succeeding for each of them, mapping
    [count] consecutive VPNs below 2^50 to [count] consecutive PPNs below
    2^51, none of them the sentinel, returns; afterwards the loop of
    assertions over the same range passes every [assert], and VPNs outside
    the range answer as before the loops. *)
Theorem map_then_assert (pt vpn_base ppn_base : Z) (count : nat) (s : phys) :
  wf_table s pt -> nalloc s + 4 * Z.of_nat count <= NPAGES ->
  mmap_next s (4 * Z.of_nat count) ->
  0 <= vpn_base -> vpn_base + Z.of_nat count <= 2 ^ 50 ->
  0 <= ppn_base -> ppn_base + Z.of_nat count <= 2 ^ 51 ->
  NO_MAPPING < ppn_base \/ ppn_base + Z.of_nat count <= NO_MAPPING ->
  exists s', map_loop count 0 pt vpn_base ppn_base s = Ok s' /\
    assert_loop count 0 pt vpn_base ppn_base s' = Passed /\
    forall v, (forall j, 0 <= j < Z.of_nat count ->
                 v mod 2 ^ 50 <> (vpn_base + j) mod 2 ^ 50) ->
      page_table_query pt v s' = page_table_query pt v s.
Proof.
  intros Hwf Hroom Hmm Hvb Hvr Hpb Hpr Hsent.
  destruct (map_loop_spec pt vpn_base ppn_base count 0 s Hwf Hroom Hmm)
    as (s' & Hrun & _ & Hin & Hout); try lia.
  exists s'. split; [assumption|]. split.
  - apply assert_loop_passes; try lia. exact Hin.
  - intros v Hv. apply Hout. intros j Hj. apply Hv. lia.
Qed.

End Walker.

(** ** Closed instances

    The sentinel is [all_ones]; the table is the frame that the first call of
    [alloc_page_frame] returns, so the root is [BIAS] and the store is
    [grown boot]. *)

Lemma boot_room : 0 <= nalloc boot < NPAGES.
Proof. unfold NPAGES. simpl. lia. Qed.

Lemma first_root_wf : wf_table (grown boot) BIAS.
Proof. exact (fresh_root_wf boot boot_room). Qed.

Lemma first_root_room : nalloc (grown boot) + 4 <= NPAGES.
Proof. unfold NPAGES. simpl. lia. Qed.

Lemma mmap_always_next (s : phys) (n : Z) : mmap_next mmap_always s n.
Proof. intros k _. reflexivity. Qed.

(** The first assertions of [main] in os.c. *)
Example main_first_asserts :
  ('(pt, s0) ← alloc_page_frame mmap_always boot;
   r0 ← page_table_query all_ones pt 0xcafecafeeee s0;
   s1 ← page_table_update all_ones mmap_always pt 0xcafecafeeee 0xf00d s0;
   r1 ← page_table_query all_ones pt 0xcafecafeeee s1;
   r2 ← page_table_query all_ones pt 0xfffecafeeee s1;
   r3 ← page_table_query all_ones pt 0xcafecafeeff s1;
   s2 ← page_table_update all_ones mmap_always pt 0xcafecafeeee all_ones s1;
   r4 ← page_table_query all_ones pt 0xcafecafeeee s2;
   Ok [r0; r1; r2; r3; r4; nalloc s2])
  = Ok [all_ones; 0xf00d; all_ones; all_ones; all_ones; 5].
Proof. vm_compute. reflexivity. Qed.

(** Further assertions of [main]: several mappings, a remap, a removal and
    the two boundary VPNs, on a second table. *)
Example main_second_table :
  ('(_, s) ← alloc_page_frame mmap_always boot;
   '(pt, s) ← alloc_page_frame mmap_always s;
   s ← page_table_update all_ones mmap_always pt 0x1 0xdead s;
   s ← page_table_update all_ones mmap_always pt 0x2 0xbeef s;
   s ← page_table_update all_ones mmap_always pt 0x3 0x1337 s;
   r1 ← page_table_query all_ones pt 0x1 s;
   r2 ← page_table_query all_ones pt 0x2 s;
   r3 ← page_table_query all_ones pt 0x3 s;
   s ← page_table_update all_ones mmap_always pt 0x2 0xc0de s;
   r4 ← page_table_query all_ones pt 0x2 s;
   s ← page_table_update all_ones mmap_always pt 0x3 all_ones s;
   r5 ← page_table_query all_ones pt 0x3 s;
   s ← page_table_update all_ones mmap_always pt 0x0 0xabc s;
   r6 ← page_table_query all_ones pt 0x0 s;
   s ← page_table_update all_ones mmap_always pt (2 ^ 50 - 1) 0x789 s;
   r7 ← page_table_query all_ones pt (2 ^ 50 - 1) s;
   Ok [r1; r2; r3; r4; r5; r6; r7])
  = Ok [0xdead; 0xbeef; 0x1337; 0xc0de; all_ones; 0xabc; 0x789].
Proof. vm_compute. reflexivity. Qed.

(** Whatever the sentinel is, a PPN of 2^51 is stored as 0. *)
Lemma truncation_any_sentinel (no_mapping : Z) :
  2 ^ 51 <> no_mapping ->
  exists s', page_table_update no_mapping mmap_always BIAS 0 (2 ^ 51) (grown boot) = Ok s' /\
    page_table_query no_mapping BIAS 0 s' = Ok 0.
Proof.
  intros Hne.
  destruct (page_table_update_spec no_mapping mmap_always BIAS 0 (2 ^ 51) (grown boot)
              first_root_wf) as (s' & Hu & _ & Hq & _).
  { right. left. split; [exact first_root_room|apply mmap_always_next]. }
  exists s'. split; [assumption|].
  by rewrite Hq, stored_insert.
Qed.

Lemma update_then_query_witness :
  exists s', page_table_update all_ones mmap_always BIAS 0xcafecafeeee 0xf00d (grown boot) = Ok s' /\
    page_table_query all_ones BIAS 0xcafecafeeee s' = Ok 0xf00d.
Proof.
  apply (update_then_query all_ones mmap_always BIAS 0xcafecafeeee 0xf00d (grown boot)).
  - exact first_root_wf.
  - exact first_root_room.
  - apply mmap_always_next.
  - rewrite pow2_51. lia.
  - unfold all_ones. rewrite pow2_64. lia.
Defined.

(** C1, as stated, fails for a PPN that does not fit the frame field: on the
    first table, after 2^51 was inserted at VPN 0 the query answers 0. *)
Lemma insert_beyond_frame_field :
  wf_table (grown boot) BIAS /\ nalloc (grown boot) + 4 <= NPAGES /\
  mmap_next mmap_always (grown boot) 4 /\ 2 ^ 51 <> all_ones /\
  exists s', page_table_update all_ones mmap_always BIAS 0 (2 ^ 51) (grown boot) = Ok s' /\
    page_table_query all_ones BIAS 0 s' = Ok 0 /\
    page_table_query all_ones BIAS 0 s' <> Ok (2 ^ 51).
Proof.
  split; [exact first_root_wf|]. split; [exact first_root_room|].
  split; [apply mmap_always_next|].
  split; [vm_compute; discriminate|].
  eexists. split; [vm_compute; reflexivity|].
  split; [vm_compute; reflexivity|vm_compute; discriminate].
Qed.

Lemma query_fresh_root_witness :
  (forall i, 0 <= i < 1024 -> peek (grown boot) (BIAS - BIAS) i = Some 0) /\
  page_table_query all_ones BIAS 0xcafecafeeee (grown boot) = Ok all_ones.
Proof.
  apply (query_fresh_root all_ones mmap_always boot (grown boot) BIAS 0xcafecafeeee).
  vm_compute. reflexivity.
Defined.

Lemma insert_remove_query_witness :
  exists s1 s2,
    page_table_update all_ones mmap_always BIAS 0xabcdef 0x9876 (grown boot) = Ok s1 /\
    page_table_update all_ones mmap_always BIAS 0xabcdef all_ones s1 = Ok s2 /\
    page_table_query all_ones BIAS 0xabcdef s2 = Ok all_ones.
Proof.
  apply (insert_remove_query all_ones mmap_always BIAS 0xabcdef 0x9876 (grown boot)).
  - exact first_root_wf.
  - exact first_root_room.
  - apply mmap_always_next.
  - unfold all_ones. rewrite pow2_64. lia.
Defined.

Lemma remap_last_wins_witness :
  exists s1 s2,
    page_table_update all_ones mmap_always BIAS 0xf0f0f0 0xaaaa (grown boot) = Ok s1 /\
    page_table_update all_ones mmap_always BIAS 0xf0f0f0 0xbbbb s1 = Ok s2 /\
    page_table_query all_ones BIAS 0xf0f0f0 s2 = Ok 0xbbbb.
Proof.
  apply (remap_last_wins all_ones mmap_always BIAS 0xf0f0f0 0xaaaa 0xbbbb (grown boot)).
  - exact first_root_wf.
  - exact first_root_room.
  - apply mmap_always_next.
  - unfold all_ones. rewrite pow2_64. lia.
  - unfold all_ones. rewrite pow2_64. lia.
  - lia.
  - rewrite pow2_51. lia.
Defined.

(** C4, as stated, fails when the second PPN does not fit the frame field:
    after 0xaaaa and then 2^51 + 0xbbbb were written at one VPN, the query
    answers 0xbbbb. *)
Lemma remap_truncated :
  wf_table (grown boot) BIAS /\ nalloc (grown boot) + 4 <= NPAGES /\
  mmap_next mmap_always (grown boot) 4 /\
  0xaaaa <> all_ones /\ 2 ^ 51 + 0xbbbb <> all_ones /\
  0xaaaa <> 2 ^ 51 + 0xbbbb /\
  exists s1 s2,
    page_table_update all_ones mmap_always BIAS 0xf0f0f0 0xaaaa (grown boot) = Ok s1 /\
    page_table_update all_ones mmap_always BIAS 0xf0f0f0 (2 ^ 51 + 0xbbbb) s1 = Ok s2 /\
    page_table_query all_ones BIAS 0xf0f0f0 s2 = Ok 0xbbbb /\
    page_table_query all_ones BIAS 0xf0f0f0 s2 <> Ok (2 ^ 51 + 0xbbbb).
Proof.
  split; [exact first_root_wf|]. split; [exact first_root_room|].
  split; [apply mmap_always_next|].
  split; [vm_compute; discriminate|]. split; [vm_compute; discriminate|].
  split; [vm_compute; discriminate|].
  eexists. eexists. split; [vm_compute; reflexivity|].
  split; [vm_compute; reflexivity|].
  split; [vm_compute; reflexivity|vm_compute; discriminate].
Qed.

Lemma update_other_vpn_witness :
  exists s' r,
    page_table_update all_ones mmap_always BIAS 0x555550000 0x2000 (grown boot) = Ok s' /\
    page_table_query all_ones BIAS 0x555550001 (grown boot) = Ok r /\
    page_table_query all_ones BIAS 0x555550001 s' = Ok r.
Proof.
  apply (update_other_vpn all_ones mmap_always BIAS 0x555550000 0x555550001 0x2000
           (grown boot)).
  - exact first_root_wf.
  - change (2 ^ 50) with 1125899906842624. lia.
  - change (2 ^ 50) with 1125899906842624. lia.
  - lia.
  - right. split; [exact first_root_room|apply mmap_always_next].
Defined.

Lemma remove_absent_noop_witness :
  page_table_update all_ones mmap_always BIAS 0xcafecafeeee all_ones (grown boot)
  = Ok (grown boot).
Proof.
  apply (proj1 (remove_absent_noop all_ones mmap_always) (grown boot) BIAS 0xcafecafeeee).
  apply invalid_here with (entry := 0); [lia| |reflexivity].
  vm_compute. reflexivity.
Defined.

(** C7, as stated, fails: before any allocation, index 0 is outside the
    allocated range, yet the address of byte 8 of PPN [BIAS] does not resolve
    to NULL. *)
Lemma phys_to_virt_unallocated_not_null :
  store_ok boot /\
  nalloc boot <= sub64 (Z.shiftr (BIAS * 8192 + 8) 13) BIAS /\
  phys_to_virt boot (BIAS * 8192 + 8) <> NULL.
Proof.
  split; [exact boot_store_ok|]. split.
  - vm_compute. discriminate.
  - vm_compute. discriminate.
Qed.

Lemma phys_to_virt_resolves_witness :
  phys_to_virt (grown boot) (BIAS * 8192 + 16) = InFrame 0 16 /\
  phys_to_virt (grown boot) ((BIAS + 1) * 8192) = NULL.
Proof.
  assert (store_ok (grown boot)) as Hok
    by (apply grown_store_ok; [exact boot_store_ok|exact (proj2 boot_room)]).
  split.
  - apply (phys_to_virt_resolves (grown boot) (BIAS * 8192 + 16) Hok).
    vm_compute. reflexivity.
  - apply (phys_to_virt_resolves (grown boot) ((BIAS + 1) * 8192) Hok).
    + vm_compute. discriminate.
    + vm_compute. reflexivity.
Defined.

(** C8, as stated, fails: with no frame allocated yet, far below the
    capacity of 2^20, the call ends with "mmap failed" when [mmap] fails, and
    returns no PPN. *)
Lemma alloc_mmap_fails_below_capacity :
  0 <= nalloc boot < NPAGES /\
  alloc_page_frame mmap_never boot = Fatal Mmap_failed /\
  forall ppn s', alloc_page_frame mmap_never boot <> Ok (ppn, s').
Proof.
  split; [exact boot_room|]. split; [vm_compute; reflexivity|].
  intros ppn s'. vm_compute. discriminate.
Qed.

Lemma alloc_page_frame_spec_witness :
  alloc_page_frame mmap_always boot = Ok (BIAS, grown boot) /\
  BIAS <> all_ones /\
  alloc_page_frame mmap_never boot = Fatal Mmap_failed.
Proof.
  assert (0 <= nalloc boot <= NPAGES) as Hn by (unfold NPAGES; simpl; lia).
  assert (sentinel_reserved all_ones) as Hres
    by (right; unfold all_ones, BIAS, NPAGES; rewrite pow2_64; lia).
  destruct (alloc_page_frame_spec all_ones mmap_always boot Hn Hres)
    as (_ & Hroom & _).
  destruct (Hroom (proj2 boot_room) eq_refl) as (Ha & _ & Hne & _).
  destruct (alloc_page_frame_spec all_ones mmap_never boot Hn Hres)
    as (_ & _ & Hfail & _).
  split; [exact Ha|]. split; [exact Hne|].
  exact (Hfail (proj2 boot_room) eq_refl).
Defined.

Lemma leaf_keeps_low_51_bits_witness :
  exists s', page_table_update all_ones mmap_always BIAS 0 (2 ^ 51 + 5) (grown boot) = Ok s' /\
    page_table_query all_ones BIAS 0 s' = Ok ((2 ^ 51 + 5) mod 2 ^ 51).
Proof.
  apply (leaf_keeps_low_51_bits all_ones mmap_always BIAS 0 (2 ^ 51 + 5) (grown boot)).
  - exact first_root_wf.
  - exact first_root_room.
  - apply mmap_always_next.
  - unfold all_ones. rewrite pow2_64, pow2_51. lia.
Defined.

(** ** [main] and closed instances of the further properties *)

(** With the all-ones sentinel [main] of os.c passes every assertion and
    reaches its [return 0]. *)
Example main_passes : main all_ones mmap_always = Passed.
Proof. vm_compute. reflexivity. Qed.

(** When [mmap] fails [main] stops at its first call of [alloc_page_frame]. *)
Example main_mmap_fails : main all_ones mmap_never = Stopped Mmap_failed.
Proof. vm_compute. reflexivity. Qed.

Lemma all_ones_not (p : Z) : 0 <= p < 2 ^ 51 -> p <> all_ones.
Proof. unfold all_ones. rewrite pow2_51, pow2_64. lia. Qed.

Lemma first_update_returns (v p : Z) :
  exists s', page_table_update all_ones mmap_always BIAS v p (grown boot) = Ok s'.
Proof.
  destruct (page_table_update_spec all_ones mmap_always BIAS v p (grown boot) first_root_wf)
    as (s' & Hu & _);
    [right; left; split; [exact first_root_room|apply mmap_always_next]|eauto].
Qed.

Lemma update_frame_bound_witness :
  exists s', page_table_update all_ones mmap_always BIAS 0x1 0xdead (grown boot) = Ok s' /\
    nalloc (grown boot) <= nalloc s' <= nalloc (grown boot) + 4.
Proof.
  destruct (first_update_returns 0x1 0xdead) as [s' Hu].
  exists s'. split; [exact Hu|].
  exact (proj1 (update_frame_bound all_ones mmap_always BIAS 0x1 0xdead (grown boot) s' Hu)).
Defined.

Lemma store_ok_kept_witness : store_ok (grown boot).
Proof.
  apply (proj1 (proj2 (store_ok_kept all_ones mmap_always)) boot BIAS (grown boot)).
  - exact boot_store_ok.
  - vm_compute. reflexivity.
Defined.

Lemma alloc_resolves_witness :
  phys_to_virt (grown boot) (shl64 BIAS 13 + 16) = InFrame 0 16.
Proof.
  apply (alloc_resolves mmap_always boot (grown boot) BIAS 16).
  - vm_compute. reflexivity.
  - lia.
Defined.

Lemma split_vpn_onto_witness :
  0 <= join_indices [1; 2; 3; 4; 5] < 2 ^ 50 /\
  split_vpn (join_indices [1; 2; 3; 4; 5]) = [1; 2; 3; 4; 5].
Proof.
  apply (split_vpn_onto [1; 2; 3; 4; 5]).
  split; [reflexivity|]. intros k Hk. unfold PAGE_TABLE_LEVELS in Hk.
  do 5 (destruct k as [|k]; [vm_compute; split; discriminate || reflexivity|]).
  lia.
Defined.

Lemma unallocated_root_faults_witness :
  page_table_query all_ones BIAS 0x1 boot = Fatal Fault /\
  page_table_update all_ones mmap_always BIAS 0x1 0xdead boot = Fatal Fault.
Proof.
  apply (unallocated_root_faults all_ones mmap_always BIAS 0x1 0xdead boot).
  - exact boot_store_ok.
  - vm_compute. discriminate.
Defined.

Lemma first_root_incomplete (v : Z) : path_incomplete (grown boot) BIAS v.
Proof.
  unfold path_incomplete.
  rewrite (root_pointer _ _ first_root_wf).
  apply invalid_here with (entry := 0); [lia| |reflexivity].
  rewrite load64_frame.
  change (BIAS - BIAS) with (nalloc boot).
  rewrite peek_grown_new; [reflexivity|].
  apply good_index_range; [apply split_vpn_good|lia].
Qed.

Lemma query_incomplete_path_witness :
  page_table_query all_ones BIAS 0xcafecafeeee (grown boot) = Ok all_ones.
Proof.
  apply (query_incomplete_path all_ones BIAS 0xcafecafeeee (grown boot)).
  apply first_root_incomplete.
Defined.

Lemma alloc_keeps_answers_witness :
  wf_table (grown (grown boot)) BIAS /\
  forall v, page_table_query all_ones BIAS v (grown (grown boot)) =
            page_table_query all_ones BIAS v (grown boot).
Proof.
  apply (alloc_keeps_answers all_ones mmap_always BIAS (BIAS + 1) (grown boot)
           (grown (grown boot))).
  - exact first_root_wf.
  - vm_compute. reflexivity.
Defined.

Lemma update_query_map_witness :
  exists s', page_table_update all_ones mmap_always BIAS 0x1 0xdead (grown boot) = Ok s' /\
    forall v2, page_table_query all_ones BIAS v2 s' =
      if decide (v2 mod 2 ^ 50 = 0x1 mod 2 ^ 50)
      then Ok (if 0xdead =? all_ones then all_ones else 0xdead mod 2 ^ 51)
      else page_table_query all_ones BIAS v2 (grown boot).
Proof.
  apply (update_query_map all_ones mmap_always BIAS 0x1 0xdead (grown boot)).
  - exact first_root_wf.
  - right. split; [exact first_root_room|apply mmap_always_next].
Defined.

Lemma updates_commute_witness :
  exists sa sab sb sba,
    page_table_update all_ones mmap_always BIAS 0x1 0xdead (grown boot) = Ok sa /\
    page_table_update all_ones mmap_always BIAS 0x2 0xbeef sa = Ok sab /\
    page_table_update all_ones mmap_always BIAS 0x2 0xbeef (grown boot) = Ok sb /\
    page_table_update all_ones mmap_always BIAS 0x1 0xdead sb = Ok sba /\
    forall v, page_table_query all_ones BIAS v sab =
              page_table_query all_ones BIAS v sba.
Proof.
  apply (updates_commute all_ones mmap_always BIAS 0x1 0xdead 0x2 0xbeef (grown boot)).
  - exact first_root_wf.
  - vm_compute. discriminate.
  - unfold NPAGES. simpl. lia.
  - apply mmap_always_next.
Defined.

Lemma insert_cost_witness :
  frames_needed (grown boot) BIAS 0x1 = 4 /\
  (exists s', page_table_update all_ones mmap_always BIAS 0x1 0xdead (grown boot) = Ok s' /\
     nalloc s' = nalloc (grown boot) + frames_needed (grown boot) BIAS 0x1) /\
  page_table_update all_ones mmap_never BIAS 0x1 0xdead (grown boot)
  = Fatal Mmap_failed.
Proof.
  assert (0xdead <> all_ones) as Hp
    by (apply all_ones_not; rewrite pow2_51; lia).
  split; [vm_compute; reflexivity|]. split.
  - apply (insert_cost all_ones mmap_always BIAS 0x1 0xdead (grown boot)).
    + exact first_root_wf.
    + exact Hp.
    + vm_compute. discriminate.
    + apply mmap_always_next.
  - apply (insert_cost all_ones mmap_never BIAS 0x1 0xdead (grown boot)
             first_root_wf Hp) with (j := 0).
    + vm_compute. split; [discriminate|reflexivity].
    + vm_compute. reflexivity.
    + intros k Hk. lia.
    + reflexivity.
Defined.

Lemma walker_never_faults_witness :
  (exists r, page_table_query all_ones BIAS 0x1 (grown boot) = Ok r) /\
  ((exists s', page_table_update all_ones mmap_never BIAS 0x1 0xdead (grown boot) = Ok s' /\
      wf_table s' BIAS) \/
   page_table_update all_ones mmap_never BIAS 0x1 0xdead (grown boot)
   = Fatal Exhausted \/
   page_table_update all_ones mmap_never BIAS 0x1 0xdead (grown boot)
   = Fatal Mmap_failed).
Proof.
  apply (walker_never_faults all_ones mmap_never BIAS 0x1 0xdead (grown boot)).
  exact first_root_wf.
Defined.

Lemma remove_keeps_path_witness :
  exists s1 s',
    page_table_update all_ones mmap_always BIAS 0x1 0xdead (grown boot) = Ok s1 /\
    page_table_update all_ones mmap_always BIAS 0x1 all_ones s1 = Ok s' /\
    nalloc s' = nalloc s1 /\ path_complete all_ones s' BIAS 0x1.
Proof.
  destruct (page_table_update_spec all_ones mmap_always BIAS 0x1 0xdead (grown boot)
              first_root_wf) as (s1 & Hu1 & Hwf1 & _ & Hpath & _).
  { right. left. split; [exact first_root_room|apply mmap_always_next]. }
  destruct (remove_keeps_path all_ones mmap_always BIAS 0x1 s1 Hwf1)
    as (s' & Hu & _ & Hc & Hkeep).
  exists s1, s'. split; [exact Hu1|]. split; [exact Hu|]. split; [exact Hc|].
  apply Hkeep. apply Hpath. apply all_ones_not. rewrite pow2_51. lia.
Defined.

Lemma update_idempotent_witness :
  exists s1, page_table_update all_ones mmap_always BIAS 0x1 0xdead (grown boot) = Ok s1 /\
    page_table_update all_ones mmap_always BIAS 0x1 0xdead s1 = Ok s1.
Proof.
  destruct (first_update_returns 0x1 0xdead) as [s1 Hu].
  exists s1. split; [exact Hu|].
  exact (update_idempotent all_ones mmap_always BIAS 0x1 0xdead (grown boot) s1
           first_root_wf Hu).
Defined.

Lemma two_roots_apart : apart (grown (grown boot)) BIAS (BIAS + 1).
Proof.
  apply (fresh_root_apart mmap_always (grown boot) (grown (grown boot)) BIAS (BIAS + 1)).
  - exact first_root_wf.
  - vm_compute. reflexivity.
Qed.

Lemma tables_isolated_witness :
  exists s', page_table_update all_ones mmap_always BIAS 0x1 0xdead (grown (grown boot)) = Ok s' /\
    apart s' BIAS (BIAS + 1) /\
    forall v2, page_table_query all_ones (BIAS + 1) v2 s' =
               page_table_query all_ones (BIAS + 1) v2 (grown (grown boot)).
Proof.
  assert (wf_table (grown (grown boot)) BIAS) as Hwf.
  { apply grown_keeps_wf; [exact first_root_wf|]. unfold NPAGES. simpl. lia. }
  destruct (page_table_update_spec all_ones mmap_always BIAS 0x1 0xdead (grown (grown boot)) Hwf)
    as (s' & Hu & _).
  { right. left. split; [unfold NPAGES; simpl; lia|apply mmap_always_next]. }
  exists s'. split; [exact Hu|].
  exact (tables_isolated all_ones mmap_always BIAS (BIAS + 1) 0x1 0xdead
           (grown (grown boot)) s' two_roots_apart Hu).
Defined.

(** The second pair of loops of [main], on the first table. *)
Lemma map_then_assert_witness :
  exists s', map_loop all_ones mmap_always 1024 0 BIAS 0x555550000 0x2000 (grown boot) = Ok s' /\
    assert_loop all_ones 1024 0 BIAS 0x555550000 0x2000 s' = Passed.
Proof.
  destruct (map_then_assert all_ones mmap_always BIAS 0x555550000 0x2000 1024 (grown boot))
    as (s' & Hrun & Hpass & _).
  - exact first_root_wf.
  - change (Z.of_nat 1024) with 1024. unfold NPAGES. simpl. lia.
  - apply mmap_always_next.
  - lia.
  - change (Z.of_nat 1024) with 1024. change (2 ^ 50) with 1125899906842624. lia.
  - lia.
  - change (Z.of_nat 1024) with 1024. rewrite pow2_51. lia.
  - right. change (Z.of_nat 1024) with 1024. unfold all_ones. rewrite pow2_64. lia.
  - exists s'. split; assumption.
Defined.
